(** * movie_database.py: the persistence layer of the movie rating console

    A shallow embedding of class [MovieDatabase] (src/movie_database.py) and
    of the part of the SQLite engine its seven statements exercise.

    Modelling decisions, all taken from the source:
    - a table with an [INTEGER PRIMARY KEY AUTOINCREMENT] is a finite map
      from rowid to row, together with its [sqlite_sequence] counter;
    - a [TEXT] value is a [string] holding its UTF-8 bytes; [ORDER BY] uses
      the BINARY collation, which is [String.leb] (bytewise, a proper prefix
      first);
    - [CURRENT_TIMESTAMP] is the engine's clock reading, a text of the form
      YYYY-MM-DD HH:MM:SS; the reading is an explicit argument [now] of the
      two inserting operations;
    - a Python [float] is a finite value, an infinity or NaN; finite values
      and the [REAL] column are exact rationals ([Q]), so binary rounding
      error of IEEE doubles is outside the model;
    - integers ([id], [movie_id], [year]) are SQLite INTEGERs, modelled by
      [Z]; the driver refuses a Python int outside the signed 64-bit range
      before any statement runs, and storage failures (I/O, a full disk,
      rowid exhaustion) are outside the model;
    - [self.conn.commit()] ends the implicit transaction of one statement;
      every operation is one statement, so a state is a committed state. *)

From Stdlib Require Import ZArith QArith Qround Qabs Lqa String Ascii.
From stdpp Require Import base option list gmap fin_maps sorting.

Local Open Scope string_scope.
Local Open Scope Z_scope.

(** ** Values *)

(** Python floats, as [add_rating] can receive them. *)
Inductive pyfloat :=
  | PyFinite (q : Q)
  | PyInf (negative : bool)
  | PyNaN.

(** ** Schema ([create_tables]) *)

(** A row of table [movies], keyed by its [id]. *)
Record movies_row := MoviesRow {
  title : string;              (* TEXT NOT NULL *)
  year : option Z;             (* INTEGER *)
  genre : option string;       (* TEXT *)
  director : option string;    (* TEXT *)
  date_added : string          (* TIMESTAMP DEFAULT CURRENT_TIMESTAMP *)
}.

(** A row of table [ratings], keyed by its [id]. *)
Record ratings_row := RatingsRow {
  movie_id : Z;                (* INTEGER NOT NULL, FOREIGN KEY ... ON DELETE CASCADE *)
  rating : Q;                  (* REAL NOT NULL CHECK(rating >= 0 AND rating <= 10) *)
  comment : option string;     (* TEXT *)
  date_rated : string          (* TIMESTAMP DEFAULT CURRENT_TIMESTAMP *)
}.

(** The connection and the database file behind it.  [foreign_keys] is the
    connection's [PRAGMA foreign_keys] setting; the two [_seq] fields are the
    [sqlite_sequence] entries of the AUTOINCREMENT tables. *)
Record database := Database {
  foreign_keys : bool;
  movies : gmap Z movies_row;
  movies_seq : Z;
  ratings : gmap Z ratings_row;
  ratings_seq : Z
}.

(** SQLite enforces foreign keys only on a connection that has executed
    [PRAGMA foreign_keys = ON]; a new connection has the setting off. *)
Definition sqlite_default_foreign_keys : bool := false.

(** A connection with foreign-key setting [fk] to a database file that
    holds the two tables, both empty. *)
Definition open_database (fk : bool) : database :=
  Database fk ∅ 0 ∅ 0.

(** [connect]: [sqlite3.connect(self.db_name)] on a new file.  No PRAGMA is
    executed, here or anywhere else, so the setting keeps the engine's
    default.  (A file without tables and a file with empty tables are the
    same state of the model.) *)
Definition connect : database := open_database sqlite_default_foreign_keys.

(** [create_tables]: both statements are CREATE TABLE IF NOT EXISTS; they
    add the tables to a new file and leave existing tables and rows alone. *)
Definition create_tables (db : database) : database := db.

(** [MovieDatabase(db_name)] on a new file: [__init__] calls [connect] and
    [create_tables]. *)
Definition MovieDatabase : database := create_tables connect.

(** Errors of the [sqlite3] driver that the source handles. *)
Inductive sqlite3_error := IntegrityError.

(** ** Engine primitives *)

(** Largest rowid of a table (0 for an empty one). *)
Definition max_rowid {A} (t : gmap Z A) : Z :=
  map_fold (λ k _ acc, Z.max k acc) 0 t.

(** AUTOINCREMENT: one more than the largest rowid that has ever existed. *)
Definition next_rowid {A} (t : gmap Z A) (seq : Z) : Z :=
  Z.max seq (max_rowid t) + 1.

(** [CHECK(rating >= 0 AND rating <= 10)] *)
Definition check_rating (q : Q) : bool :=
  Qle_bool 0 q && Qle_bool q 10.

(** [INSERT INTO ratings (movie_id, rating, comment) VALUES (?, ?, ?)].
    NaN is bound as NULL and violates NOT NULL; an infinity and a finite
    value out of range violate the CHECK; the foreign key is looked at only
    when the connection enforces foreign keys. *)
Definition insert_rating (now : string) (mid : Z) (r : pyfloat)
    (c : option string) (db : database) : sqlite3_error + database :=
  match r with
  | PyNaN => inl IntegrityError
  | PyInf _ => inl IntegrityError
  | PyFinite q =>
      if negb (check_rating q) then inl IntegrityError
      else if foreign_keys db && negb (bool_decide (is_Some (movies db !! mid)))
      then inl IntegrityError
      else
        let id := next_rowid (ratings db) (ratings_seq db) in
        inr (Database (foreign_keys db) (movies db) (movies_seq db)
               (<[id := RatingsRow mid q c now]> (ratings db)) id)
  end.

(** ** Operations of [MovieDatabase] *)

(** [add_movie]: the INSERT and [cursor.lastrowid]. *)
Definition add_movie (now : string) (t : string) (y : option Z)
    (g d : option string) (db : database) : database * Z :=
  let id := next_rowid (movies db) (movies_seq db) in
  (Database (foreign_keys db) (<[id := MoviesRow t y g d now]> (movies db)) id
     (ratings db) (ratings_seq db),
   id).

(** [add_rating]: [True] after the INSERT, [False] on [IntegrityError]. *)
Definition add_rating (now : string) (mid : Z) (r : pyfloat)
    (c : option string) (db : database) : database * bool :=
  match insert_rating now mid r c db with
  | inr db' => (db', true)
  | inl IntegrityError => (db, false)
  end.

(** [delete_movie]: [DELETE FROM movies WHERE id = ?] and
    [cursor.rowcount > 0].  The rows of [ratings] that reference a deleted
    movie go with it (ON DELETE CASCADE) when the connection enforces
    foreign keys; [rowcount] counts the rows of [movies] only. *)
Definition delete_movie (mid : Z) (db : database) : database * bool :=
  let rowcount := if movies db !! mid is Some _ then 1 else 0 in
  let ratings' :=
    if foreign_keys db && (0 <? rowcount)
    then filter (λ kr, movie_id kr.2 ≠ mid) (ratings db)
    else ratings db in
  (Database (foreign_keys db) (delete mid (movies db)) (movies_seq db)
     ratings' (ratings_seq db),
   0 <? rowcount).

(** [get_movie_by_id]: [fetchone] gives the row or [None]. *)
Definition get_movie_by_id (mid : Z) (db : database)
    : option (Z * string * option Z * option string * option string * string) :=
  match movies db !! mid with
  | Some m => Some (mid, title m, year m, genre m, director m, date_added m)
  | None => None
  end.

(** ** Query primitives *)

(** [AVG(r.rating)]: NULL over no rows, else the sum divided by the count. *)
Definition AVG (l : list Q) : option Q :=
  match l with
  | [] => None
  | _ => Some (Qred (foldr Qplus 0%Q l / inject_Z (Z.of_nat (length l))))
  end.

(** [ROUND(x, 2)]: the nearest multiple of 1/100, a tie away from zero. *)
Definition ROUND2 (x : Q) : Q :=
  if Qle_bool 0 x
  then Qred (Qfloor (x * 100 + (1 # 2)) # 100)
  else Qred (- (Qfloor (- x * 100 + (1 # 2)) # 100)).

(** Bytes 10xxxxxx continue a UTF-8 character. *)
Definition is_continuation (c : ascii) : bool :=
  (N.land (N_of_ascii c) 192 =? 128)%N.

Fixpoint skip_continuation (s : string) : string :=
  match s with
  | String c s' => if is_continuation c then skip_continuation s' else s
  | EmptyString => EmptyString
  end.

(** LIKE folds the case of the 26 ASCII letters only. *)
Definition tolower (c : ascii) : ascii :=
  let n := N_of_ascii c in
  if ((65 <=? n) && (n <=? 90))%N then ascii_of_N (n + 32) else c.

(** [text LIKE pattern], without ESCAPE: [%] matches any run of characters,
    [_] one character (a byte and, after a lead byte 11xxxxxx, the
    continuation bytes that follow), any other byte itself up to ASCII
    case. *)
Fixpoint LIKE_pattern (p : string) : string → bool :=
  match p with
  | EmptyString => λ s, if s is EmptyString then true else false
  | String "%" p' =>
      fix any_run (s : string) : bool :=
        LIKE_pattern p' s ||
        match s with
        | EmptyString => false
        | String _ s' => any_run s'
        end
  | String "_" p' => λ s,
      match s with
      | EmptyString => false
      | String c s' =>
          LIKE_pattern p'
            (if (192 <=? N_of_ascii c)%N then skip_continuation s' else s')
      end
  | String c p' => λ s,
      match s with
      | EmptyString => false
      | String c' s' => Ascii.eqb (tolower c) (tolower c') && LIKE_pattern p' s'
      end
  end.

Definition LIKE (text pattern : string) : bool := LIKE_pattern pattern text.

(** A row group of [movies m LEFT JOIN ratings r ON m.id = r.movie_id
    GROUP BY m.id]: the movie and the rows of [ratings] joined to it. *)
Definition movie_group : Type := Z * movies_row * list (Z * ratings_row).

Definition ratings_of (mid : Z) (db : database) : list (Z * ratings_row) :=
  filter (λ kr, movie_id kr.2 = mid) (map_to_list (ratings db)).

Definition joined (db : database) : list movie_group :=
  (λ km, (km.1, km.2, ratings_of km.1 db)) <$> map_to_list (movies db).

(** [ORDER BY m.title] *)
Definition by_title : relation movie_group :=
  λ a b, (title a.1.2 <=? title b.1.2)%string = true.

(** [ORDER BY date_rated DESC] *)
Definition by_date_rated_desc : relation (Z * ratings_row) :=
  λ a b, (date_rated b.2 <=? date_rated a.2)%string = true.

Global Instance by_title_dec a b : Decision (by_title a b).
Proof. unfold by_title. apply _. Defined.

Global Instance by_date_rated_desc_dec a b : Decision (by_date_rated_desc a b).
Proof. unfold by_date_rated_desc. apply _. Defined.

(** [ROUND(AVG(r.rating), 2)] of a group. *)
Definition avg_rating (g : movie_group) : option Q :=
  ROUND2 <$> AVG ((λ kr, rating kr.2) <$> g.2).

(** [COUNT(r.id)] of a group. *)
Definition rating_count (g : movie_group) : Z := Z.of_nat (length g.2).

(** [get_all_movies]: one tuple per movie. *)
Definition get_all_movies (db : database)
    : list (Z * string * option Z * option string * option string * option Q * Z) :=
  (λ g : movie_group,
     (g.1.1, title g.1.2, year g.1.2, genre g.1.2, director g.1.2,
      avg_rating g, rating_count g))
  <$> merge_sort by_title (joined db).

(** [search_movies]: the pattern is [f'%{search_term}%']. *)
Definition search_movies (search_term : string) (db : database)
    : list (Z * string * option Z * option string * option string * option Q) :=
  (λ g : movie_group,
     (g.1.1, title g.1.2, year g.1.2, genre g.1.2, director g.1.2, avg_rating g))
  <$> merge_sort by_title
        (filter (λ g : movie_group,
                   LIKE (title g.1.2) ("%" ++ search_term ++ "%") = true)
                (joined db)).

(** [get_movie_ratings] *)
Definition get_movie_ratings (mid : Z) (db : database)
    : list (Q * option string * string) :=
  (λ kr : Z * ratings_row, (rating kr.2, comment kr.2, date_rated kr.2))
  <$> merge_sort by_date_rated_desc (ratings_of mid db).

(** ** The prompt of [MovieRatingApp] *)

(** [get_input] with its defaults [required=True] and [input_type=str], on
    the lines that [input()] is going to deliver; [strip] is [str.strip].
    An empty value prints "This field is required" and prompts again;
    [None] is the end of the lines, where [input()] raises [EOFError].
    [MovieRatingApp.add_movie] takes the title from this call. *)
Fixpoint get_input (strip : string → string) (lines : list string)
    : option (string * list string) :=
  match lines with
  | [] => None
  | line :: rest =>
      match strip line with
      | EmptyString => get_input strip rest
      | value => Some (value, rest)
      end
  end.

(** ** Histories *)

(** The state-changing calls a client can make. *)
Inductive operation :=
  | AddMovie (now t : string) (y : option Z) (g d : option string)
  | AddRating (now : string) (mid : Z) (r : pyfloat) (c : option string)
  | DeleteMovie (mid : Z).

Definition run_op (db : database) (o : operation) : database :=
  match o with
  | AddMovie now t y g d => (add_movie now t y g d db).1
  | AddRating now mid r c => (add_rating now mid r c db).1
  | DeleteMovie mid => (delete_movie mid db).1
  end.

Definition run (ops : list operation) (db : database) : database :=
  foldl run_op db ops.

(** States of a store that [fk] opened empty and the operations changed. *)
Definition reachable_from (fk : bool) (db : database) : Prop :=
  ∃ ops, db = run ops (open_database fk).

(** States the program can be in: [MovieDatabase] and the operations. *)
Definition reachable (db : database) : Prop :=
  ∃ ops, db = run ops MovieDatabase.

(** No rating without its movie. *)
Definition referential_integrity (db : database) : Prop :=
  ∀ k r, ratings db !! k = Some r → is_Some (movies db !! movie_id r).

(** ** Auxiliary notions for the statements *)

(** What a successful INSERT leaves behind. *)
Definition with_rating (now : string) (mid : Z) (q : Q) (c : option string)
    (db : database) : database :=
  Database (foreign_keys db) (movies db) (movies_seq db)
    (<[next_rowid (ratings db) (ratings_seq db) := RatingsRow mid q c now]>
       (ratings db))
    (next_rowid (ratings db) (ratings_seq db)).

(** Order on Python floats ([<] is false as soon as NaN is involved). *)
Definition pyfloat_lt (a b : pyfloat) : Prop :=
  match a, b with
  | PyNaN, _ | _, PyNaN => False
  | PyFinite x, PyFinite y => (x < y)%Q
  | PyInf n, PyFinite _ => n = true
  | PyFinite _, PyInf n => n = false
  | PyInf n, PyInf m => n = true ∧ m = false
  end.

(** Every stored rating passes the CHECK. *)
Definition ratings_in_range (db : database) : Prop :=
  map_Forall (λ _ r, (0 <= rating r)%Q ∧ (rating r <= 10)%Q) (ratings db).

(** The title column of a tuple of [get_all_movies] and of [search_movies],
    and a tuple of [get_all_movies] without its [rating_count]. *)
Definition listed_title
    (row : Z * string * option Z * option string * option string * option Q * Z)
    : string := row.1.1.1.1.1.2.

Definition found_title
    (row : Z * string * option Z * option string * option string * option Q)
    : string := row.1.1.1.1.2.


(** BINARY collation order on texts. *)
Definition text_le : relation string := λ a b, (a <=? b)%string = true.




(** ** Stores of the scenarios *)

(** One movie with two ratings. *)
Definition inception : database :=
  run [AddMovie "2024-05-01 10:00:00" "Inception" (Some 2010) (Some "Sci-Fi")
         (Some "Christopher Nolan");
       AddRating "2024-05-01 10:00:01" 1 (PyFinite (19 # 2)) (Some "Mind-bending");
       AddRating "2024-05-01 10:00:02" 1 (PyFinite 8) None] MovieDatabase.

(** Three movies, the last one with three ratings. *)
Definition catalogue : database :=
  run [AddMovie "2024-05-01 10:00:00" "The Matrix Reloaded" (Some 2003) None None;
       AddMovie "2024-05-01 10:00:01" "Alien" (Some 1979) None None;
       AddMovie "2024-05-01 10:00:02" "The Matrix" (Some 1999) None None;
       AddRating "2024-05-01 10:00:03" 3 (PyFinite 9) None;
       AddRating "2024-05-01 10:00:04" 3 (PyFinite (17 # 2)) None;
       AddRating "2024-05-01 10:00:05" 3 (PyFinite (33 # 4)) None] MovieDatabase.


(** ** Notions for the properties beyond the claims *)

(** The id column of a tuple of [get_all_movies] and of [search_movies]. *)
Definition listed_id
    (row : Z * string * option Z * option string * option string * option Q * Z)
    : Z := row.1.1.1.1.1.1.

Definition found_id
    (row : Z * string * option Z * option string * option string * option Q)
    : Z := row.1.1.1.1.1.

(** The tuple that [get_all_movies] builds for movie [id] with row [m]. *)
Definition listed_row (db : database) (id : Z) (m : movies_row)
    : Z * string * option Z * option string * option string * option Q * Z :=
  (id, title m, year m, genre m, director m,
   avg_rating (id, m, ratings_of id db),
   rating_count (id, m, ratings_of id db)).





(** Every id of both tables is positive and at most the AUTOINCREMENT
    counter of its table. *)
Definition rowids_in_sequence (db : database) : Prop :=
  0 ≤ movies_seq db ∧ 0 ≤ ratings_seq db ∧
  (∀ k, is_Some (movies db !! k) → 0 < k ≤ movies_seq db) ∧
  (∀ k, is_Some (ratings db !! k) → 0 < k ≤ ratings_seq db).

(** The calls of [add_movie] in a history. *)
Definition is_add_movie (o : operation) : Prop :=
  match o with
  | AddMovie _ _ _ _ _ => True
  | _ => False
  end.

Global Instance is_add_movie_dec o : Decision (is_add_movie o).
Proof. destruct o; simpl; apply _. Defined.

(** ** The console: class [MovieRatingApp] *)

(** What the console takes from Python and from the engine: the string
    methods and conversions it calls on what the user types ([None] is
    [ValueError]), and the clock, the reading that the n-th INSERT of the
    session stores. *)
Record runtime := Runtime {
  str_strip : string → string;
  str_lower : string → string;
  int_of_str : string → option Z;
  float_of_str : string → option pyfloat;
  CURRENT_TIMESTAMP : nat → string
}.

(** The result lines and listings that the console prints.  Prompts, the
    menu, headers and the two hints of [get_input] are not recorded. *)
Inductive message :=
  | MovieAdded (t : string) (id : Z)
      (* ✓ Movie '{title}' added successfully! (ID: {movie_id}) *)
  | MovieNotFound (id : Z)          (* ✗ Movie with ID {movie_id} not found. *)
  | RatingOutOfRange                (* Rating must be between 0 and 10. *)
  | RatingAdded                     (* ✓ Rating added successfully! *)
  | RatingFailed                    (* ✗ Failed to add rating. *)
  | MovieDeleted                    (* ✓ Movie deleted successfully! *)
  | DeleteFailed                    (* ✗ Failed to delete movie. *)
  | DeletionCancelled               (* Deletion cancelled. *)
  | InvalidChoice                   (* ✗ Invalid choice. Please try again. *)
  | Goodbye                         (* Thank you for using ... *)
  | AllMovies
      (rows : list (Z * string * option Z * option string * option string
                    * option Q * Z))
  | SearchResult (term : string)
      (rows : list (Z * string * option Z * option string * option string
                    * option Q))
  | MovieDetails
      (movie : Z * string * option Z * option string * option string * string)
      (rows : list (Q * option string * string)).

(** The two lines that report a refused write. *)
Definition failure (m : message) : Prop :=
  m = RatingFailed ∨ m = DeleteFailed.

(** The lines still to be typed, [self.db], the number of INSERTs run so
    far and what has been printed. *)
Record world := World {
  stdin : list string;
  self_db : database;
  statements : nat;
  stdout : list message
}.

(** A method of the console: it runs on a world and either returns or lets
    an exception pass ([None]). *)
Definition shell (A : Type) : Type := world → option A * world.

Definition ret {A} (a : A) : shell A := λ w, (Some a, w).

Definition bind {A B} (m : shell A) (k : A → shell B) : shell B :=
  λ w, match m w with
       | (Some a, w') => k a w'
       | (None, w') => (None, w')
       end.

Definition raise {A} : shell A := λ w, (None, w).

Declare Scope shell_scope.
Delimit Scope shell_scope with shell.
Bind Scope shell_scope with shell.

Notation "x <- m ;; k" := (bind m (λ x, k))
  (at level 100, m at next level, right associativity) : shell_scope.
Notation "m ;;; k" := (bind m (λ _, k))
  (at level 100, right associativity) : shell_scope.

(** [input(prompt)] *)
Definition input : shell string :=
  λ w, match stdin w with
       | [] => (None, w)
       | line :: rest =>
           (Some line, World rest (self_db w) (statements w) (stdout w))
       end.

(** [print] of a recorded line. *)
Definition print (m : message) : shell unit :=
  λ w, (Some tt,
        World (stdin w) (self_db w) (statements w) (stdout w ++ [m])%list).

(** The loop of [get_input] on the lines to come: the value, [Some None]
    for the [None] of an optional field left empty, and the lines left;
    [None] when the lines end before a value is accepted.  [input_type] is
    the conversion that the source applies ([int], [float], or none). *)
Fixpoint get_input_lines {A} (strip : string → string) (required : bool)
    (input_type : string → option A) (lines : list string)
    : option (option A) * list string :=
  match lines with
  | [] => (None, [])
  | line :: rest =>
      match strip line with
      | EmptyString =>
          if required then get_input_lines strip required input_type rest
          else (Some None, rest)
      | value =>
          match input_type value with
          | Some a => (Some (Some a), rest)
          | None => get_input_lines strip required input_type rest
          end
      end
  end.

(** A line that the loop of [get_input] skips: empty after [strip] where a
    value is required, or refused by the conversion. *)
Definition skipped {A} (strip : string → string)
    (input_type : string → option A) (required : bool) (line : string)
    : Prop :=
  (strip line = "" ∧ required = true) ∨
  (strip line ≠ "" ∧ input_type (strip line) = None).

(** [input_type=str]: the value is returned as it is. *)
Definition str : string → option string := Some.

(** The value of a call with [required=True], which is never [None]. *)
Definition the {A} (m : shell (option A)) : shell A :=
  (o <- m ;; match o with Some a => ret a | None => raise end)%shell.

(** Python's [0 <= rating <= 10]. *)
Definition between_0_and_10 (r : pyfloat) : bool :=
  match r with
  | PyFinite q => Qle_bool 0 q && Qle_bool q 10
  | PyInf _ | PyNaN => false
  end.

(** The driver binds a Python [int] only when SQLite can hold it, in 64
    bits with a sign; for any other [int] the call raises [OverflowError]
    before a statement runs.  In a method of the console [None] is thus the
    [EOFError] of [input()] or this [OverflowError]. *)
Definition fits_INTEGER (z : Z) : bool :=
  (- 2 ^ 63 <=? z) && (z <? 2 ^ 63).

Definition bound {A} (z : option Z) (call : shell A) : shell A :=
  match z with
  | Some z => if fits_INTEGER z then call else raise
  | None => call
  end.

(** The calls of [self.db]. *)
Definition db_add_movie (py : runtime) (t : string) (y : option Z)
    (g d : option string) : shell Z :=
  bound y
    (λ w, let r := add_movie (CURRENT_TIMESTAMP py (statements w)) t y g d
                     (self_db w) in
          (Some r.2, World (stdin w) r.1 (S (statements w)) (stdout w))).

Definition db_add_rating (py : runtime) (mid : Z) (r : pyfloat)
    (c : option string) : shell bool :=
  bound (Some mid)
    (λ w, let r := add_rating (CURRENT_TIMESTAMP py (statements w)) mid r c
                     (self_db w) in
          (Some r.2, World (stdin w) r.1 (S (statements w)) (stdout w))).

Definition db_delete_movie (mid : Z) : shell bool :=
  bound (Some mid)
    (λ w, let r := delete_movie mid (self_db w) in
          (Some r.2, World (stdin w) r.1 (statements w) (stdout w))).

Definition db_query {A} (q : database → A) : shell A :=
  λ w, (Some (q (self_db w)), w).

Definition db_get_movie_by_id (mid : Z)
    : shell (option (Z * string * option Z * option string * option string
                     * string)) :=
  bound (Some mid) (db_query (get_movie_by_id mid)).

Definition db_get_movie_ratings (mid : Z)
    : shell (list (Q * option string * string)) :=
  bound (Some mid) (db_query (get_movie_ratings mid)).

Module MovieRatingApp.

(** [get_input(prompt, required, input_type)] *)
Definition get_input {A} (py : runtime) (required : bool)
    (input_type : string → option A) : shell (option A) :=
  λ w, let r := get_input_lines (str_strip py) required input_type (stdin w) in
       (r.1, World r.2 (self_db w) (statements w) (stdout w)).

(** The [while True] loop of [add_rating_to_movie]: prompt until the rating
    is between 0 and 10.  [fuel] bounds the rounds; every round reads a
    line, so the number of lines left is enough. *)
Fixpoint rating_loop (py : runtime) (fuel : nat) : shell pyfloat :=
  match fuel with
  | O => raise
  | S fuel' =>
      (rating <- the (get_input py true (float_of_str py)) ;;
       if between_0_and_10 rating then ret rating
       else print RatingOutOfRange ;;; rating_loop py fuel')%shell
  end.

(** [add_rating_to_movie(movie_id)] *)
Definition add_rating_to_movie (py : runtime) (movie_id : option Z)
    : shell unit :=
  (movie_id <- match movie_id with
               | None => the (get_input py true (int_of_str py))
               | Some id => ret id
               end ;;
   movie <- db_get_movie_by_id movie_id ;;
   match movie with
   | None => print (MovieNotFound movie_id) ;;; _ <- input ;; ret tt
   | Some _ =>
       rating <- (λ w, rating_loop py (length (stdin w)) w) ;;
       comment <- get_input py false str ;;
       ok <- db_add_rating py movie_id rating comment ;;
       print (if ok : bool then RatingAdded else RatingFailed) ;;;
       _ <- input ;; ret tt
   end)%shell.

(** [add_movie()] *)
Definition add_movie (py : runtime) : shell unit :=
  (title <- the (get_input py true str) ;;
   year <- get_input py false (int_of_str py) ;;
   genre <- get_input py false str ;;
   director <- get_input py false str ;;
   movie_id <- db_add_movie py title year genre director ;;
   print (MovieAdded title movie_id) ;;;
   answer <- the (get_input py true str) ;;
   if String.eqb (str_lower py answer) "y"
   then add_rating_to_movie py (Some movie_id)
   else _ <- input ;; ret tt)%shell.

(** [view_all_movies()] *)
Definition view_all_movies : shell unit :=
  (movies <- db_query get_all_movies ;;
   print (AllMovies movies) ;;;
   _ <- input ;; ret tt)%shell.

(** [search_movies()] *)
Definition search_movies (py : runtime) : shell unit :=
  (search_term <- the (get_input py true str) ;;
   movies <- db_query (search_movies search_term) ;;
   print (SearchResult search_term movies) ;;;
   _ <- input ;; ret tt)%shell.

(** [view_movie_details()] *)
Definition view_movie_details (py : runtime) : shell unit :=
  (movie_id <- the (get_input py true (int_of_str py)) ;;
   movie <- db_get_movie_by_id movie_id ;;
   match movie with
   | None => print (MovieNotFound movie_id) ;;; _ <- input ;; ret tt
   | Some movie =>
       ratings <- db_get_movie_ratings movie_id ;;
       print (MovieDetails movie ratings) ;;;
       _ <- input ;; ret tt
   end)%shell.

(** [delete_movie()] *)
Definition delete_movie (py : runtime) : shell unit :=
  (movie_id <- the (get_input py true (int_of_str py)) ;;
   movie <- db_get_movie_by_id movie_id ;;
   match movie with
   | None => print (MovieNotFound movie_id) ;;; _ <- input ;; ret tt
   | Some _ =>
       confirm <- the (get_input py true str) ;;
       (if String.eqb (str_lower py confirm) "yes"
        then ok <- db_delete_movie movie_id ;;
             print (if ok : bool then MovieDeleted else DeleteFailed)
        else print DeletionCancelled) ;;;
       _ <- input ;; ret tt
   end)%shell.

(** The [while self.running] loop of [run()]; every round reads a line, so
    the number of lines left is enough [fuel]. *)
Fixpoint run_loop (py : runtime) (fuel : nat) : shell unit :=
  match fuel with
  | O => raise
  | S fuel' =>
      (choice <- the (get_input py true str) ;;
       if String.eqb choice "1" then add_movie py ;;; run_loop py fuel'
       else if String.eqb choice "2" then view_all_movies ;;; run_loop py fuel'
       else if String.eqb choice "3" then search_movies py ;;; run_loop py fuel'
       else if String.eqb choice "4"
         then add_rating_to_movie py None ;;; run_loop py fuel'
       else if String.eqb choice "5"
         then view_movie_details py ;;; run_loop py fuel'
       else if String.eqb choice "6" then delete_movie py ;;; run_loop py fuel'
       else if String.eqb choice "7" then print Goodbye
       else print InvalidChoice ;;; _ <- input ;; run_loop py fuel')%shell
  end.

(** [run()], up to the [close] of the connection. *)
Definition run (py : runtime) : shell unit :=
  λ w, run_loop py (length (stdin w)) w.

End MovieRatingApp.

(** The writes that the console lets through to [self.db]. *)
Inductive console_step : database → database → Prop :=
  | console_add_movie now t y g d db :
      t ≠ "" →
      console_step db (add_movie now t y g d db).1
  | console_add_rating now mid q c db :
      is_Some (movies db !! mid) → check_rating q = true →
      console_step db (add_rating now mid (PyFinite q) c db).1
  | console_delete_movie mid db :
      is_Some (movies db !! mid) →
      console_step db (delete_movie mid db).1.

(** [w'] comes after [w] in a session: the store has moved by writes of
    the console, the output has grown by lines that report no failure, and
    no line has come back to the input. *)
Definition follows (w w' : world) : Prop :=
  rtc console_step (self_db w) (self_db w') ∧
  (∃ l, stdout w' = (stdout w ++ l)%list ∧ Forall (λ m, ¬ failure m) l) ∧
  (length (stdin w') ≤ length (stdin w))%nat.

(** A method started where [P] holds leads to a world that follows, and
    what it returns satisfies [Q] there. *)
Definition triple {A} (P : world → Prop) (m : shell A)
    (Q : A → world → Prop) : Prop :=
  ∀ w, P w → follows w (m w).2 ∧ ∀ a, (m w).1 = Some a → Q a (m w).2.

(** Every rating belongs to a movie id that [add_movie] has handed out. *)
Definition ratings_of_issued_ids (db : database) : Prop :=
  ∀ k r, ratings db !! k = Some r → 0 < movie_id r ≤ movies_seq db.

(** Ids in sequence and no rating for an id that was never handed out. *)
Definition well_numbered (db : database) : Prop :=
  rowids_in_sequence db ∧ ratings_of_issued_ids db.

(** ** A runtime and a session for the scenarios *)

(** The value of a run of decimal digits. *)
Fixpoint digits_value (acc : Z) (s : string) : option Z :=
  match s with
  | EmptyString => Some acc
  | String c s' =>
      let n := N_of_ascii c in
      if ((48 <=? n) && (n <=? 57))%N
      then digits_value (10 * acc + Z.of_N (n - 48)) s'
      else None
  end.

(** A user who types no blanks around the values, answers in lower case
    and writes numbers as decimal digits: on such lines [strip] and [lower]
    change nothing and the conversions read the digits. *)
Definition demo_runtime : runtime :=
  Runtime (λ s, s) (λ s, s)
    (λ s, if s is EmptyString then None else digits_value 0 s)
    (λ s, if s is EmptyString then None
          else (λ z, PyFinite (inject_Z z)) <$> digits_value 0 s)
    (λ n, "2024-05-01 10:00:00").

(** Add "Up" (2009), rate it 12 (refused at the prompt) and then 9, try to
    rate movie 5, delete movie 1 after a first "no", and leave. *)
Definition demo_session : world :=
  World ["1"; "Up"; "2009"; ""; ""; "y"; "12"; "9"; "great"; "";
         "4"; "5"; "";
         "6"; "1"; "no"; "";
         "2"; "";
         "6"; "1"; "yes"; "";
         "7"; "left over"]
    MovieDatabase 0 [].

(** ** What the listings show *)

(** Python's [len] and slices count characters, while the store keeps the
    bytes of a text; the expressions of the listings are therefore modelled
    on the sequence of the code points of a [str]. *)
Definition literal (s : string) : list N :=
  N_of_ascii <$> list_ascii_of_string s.

(** [title[:28] + ".." if len(title) > 30 else title] of
    [view_all_movies]. *)
Definition title_display (title : list N) : list N :=
  if (30 <? length title)%nat then take 28 title ++ literal ".." else title.

(** [title[:33] + ".." if len(title) > 35 else title] of [search_movies]. *)
Definition found_title_display (title : list N) : list N :=
  if (35 <? length title)%nat then take 33 title ++ literal ".." else title.

(** [genre[:15] if genre else "N/A"]: [None] and the empty [str] are
    false. *)
Definition genre_str (genre : option (list N)) : list N :=
  match genre with
  | Some (c :: g) => take 15 (c :: g)
  | Some [] | None => literal "N/A"
  end.

(** [comment[:35] + "..." if comment and len(comment) > 38
     else (comment or "No comment")] of [view_movie_details]. *)
Definition comment_display (comment : option (list N)) : list N :=
  match comment with
  | Some (c :: t) =>
      if (38 <? length (c :: t))%nat
      then take 35 (c :: t) ++ literal "..."
      else c :: t
  | Some [] | None => literal "No comment"
  end.



(** No movie has the empty title. *)
Definition titles_not_empty (db : database) : Prop :=
  ∀ k m, movies db !! k = Some m → title m ≠ "".

(** A method that leaves [self.db] as it found it. *)
Definition keeps_store {A} (m : shell A) : Prop :=
  ∀ w, self_db (m w).2 = self_db w.

(** * Properties *)

(** ** The BINARY collation is a total preorder *)

Section collation.

Lemma string_leb_refl (a : string) : (a <=? a)%string = true.
Proof.
  unfold String.leb. induction a as [|x a IH]; simpl; [done|].
  unfold Ascii.compare. by rewrite N.compare_refl.
Qed.

Lemma string_leb_trans (a b c : string) :
  (a <=? b)%string = true → (b <=? c)%string = true → (a <=? c)%string = true.
Proof.
  unfold String.leb. revert b c.
  induction a as [|x a IH]; intros [|y b] [|z c]; simpl; try done.
  unfold Ascii.compare.
  destruct (N.compare_spec (N_of_ascii x) (N_of_ascii y)) as [Hxy|Hxy|Hxy];
    destruct (N.compare_spec (N_of_ascii y) (N_of_ascii z)) as [Hyz|Hyz|Hyz];
    try done.
  - rewrite Hxy, Hyz, N.compare_refl. apply IH.
  - rewrite Hxy. intros _ _.
    by destruct (N.compare_spec (N_of_ascii y) (N_of_ascii z)); try lia.
  - rewrite <- Hyz. intros _ _.
    by destruct (N.compare_spec (N_of_ascii x) (N_of_ascii y)); try lia.
  - intros _ _.
    by destruct (N.compare_spec (N_of_ascii x) (N_of_ascii z)); try lia.
Qed.

Global Instance by_title_total : Total by_title.
Proof. intros a b. apply String.leb_total. Qed.

Global Instance by_title_trans : Transitive by_title.
Proof. intros a b c. apply string_leb_trans. Qed.

Global Instance by_date_rated_desc_total : Total by_date_rated_desc.
Proof. intros a b. apply String.leb_total. Qed.

Global Instance by_date_rated_desc_trans : Transitive by_date_rated_desc.
Proof. intros a b c H1 H2. exact (string_leb_trans _ _ _ H2 H1). Qed.

End collation.

(** ** Rowid allocation *)

Section rowids.
Context {A : Type}.
Implicit Types (t : gmap Z A).

Lemma max_rowid_bounds t :
  0 ≤ max_rowid t ∧ ∀ k, is_Some (t !! k) → k ≤ max_rowid t.
Proof.
  unfold max_rowid.
  apply (map_fold_weak_ind (λ r t, 0 ≤ r ∧ ∀ k, is_Some (t !! k) → k ≤ r)).
  - split; [lia|]. intros k [x Hx]. by rewrite lookup_empty in Hx.
  - intros i x m r Hi [Hr Hm]. split; [lia|].
    intros k [y Hy]. destruct (decide (i = k)) as [->|Hne]; [lia|].
    rewrite lookup_insert_ne in Hy by done.
    specialize (Hm k (ex_intro _ y Hy)). lia.
Qed.


Lemma next_rowid_above_seq t seq : seq < next_rowid t seq.
Proof. unfold next_rowid. lia. Qed.

Lemma next_rowid_above_rows t seq k :
  is_Some (t !! k) → k < next_rowid t seq.
Proof.
  intros Hk. unfold next_rowid.
  pose proof (max_rowid_bounds t) as [_ Hmax]. specialize (Hmax k Hk). lia.
Qed.

Lemma next_rowid_fresh t seq : t !! next_rowid t seq = None.
Proof.
  destruct (t !! next_rowid t seq) as [x|] eqn:Hx; [|done].
  pose proof (next_rowid_above_rows t seq _ (ex_intro _ x Hx)). lia.
Qed.

End rowids.

(** ** AddRating *)

Section add_rating.
Implicit Types (db : database) (q : Q) (r : pyfloat).

Lemma check_rating_spec q : check_rating q = true ↔ (0 <= q)%Q ∧ (q <= 10)%Q.
Proof.
  unfold check_rating. rewrite andb_true_iff.
  by rewrite !Qle_bool_iff.
Qed.

Lemma add_rating_accepts now mid q c db :
  check_rating q = true →
  (foreign_keys db = false ∨ is_Some (movies db !! mid)) →
  add_rating now mid (PyFinite q) c db = (with_rating now mid q c db, true).
Proof.
  intros Hq Hfk. unfold add_rating, insert_rating, with_rating.
  rewrite Hq. simpl.
  destruct Hfk as [Hoff|Hm]; [by rewrite Hoff|].
  rewrite (bool_decide_eq_true_2 _ Hm). simpl.
  by rewrite andb_false_r.
Qed.

Lemma add_rating_check_fails now mid q c db :
  check_rating q = false → add_rating now mid (PyFinite q) c db = (db, false).
Proof. intros Hq. unfold add_rating, insert_rating. by rewrite Hq. Qed.

(** With the foreign key enforced the INSERT of a rating for an unknown
    movie raises [IntegrityError], which [add_rating] turns into [False]. *)
Lemma add_rating_enforced_unknown_movie now mid r c db :
  foreign_keys db = true → movies db !! mid = None →
  add_rating now mid r c db = (db, false).
Proof.
  intros Hfk Hm. unfold add_rating, insert_rating.
  destruct r as [q| |]; try done.
  destruct (check_rating q); simpl; [|done].
  rewrite Hfk. simpl.
  rewrite bool_decide_eq_false_2; [done|].
  rewrite Hm. by intros [? ?].
Qed.

(** [add_rating] either changes nothing and says [False], or adds one row
    that passed the CHECK and says [True]. *)
Lemma add_rating_cases now mid r c db :
  add_rating now mid r c db = (db, false) ∨
  ∃ q, r = PyFinite q ∧ check_rating q = true ∧
       add_rating now mid r c db = (with_rating now mid q c db, true).
Proof.
  unfold add_rating, insert_rating.
  destruct r as [q| |]; [|by left..].
  destruct (check_rating q) eqn:Hq; simpl; [|by left].
  destruct (foreign_keys db && _); [by left|].
  right. by exists q.
Qed.

End add_rating.

(** ** Histories preserve the connection setting and the CHECK *)

Section histories.
Implicit Types (db : database) (ops : list operation).

Lemma run_app ops1 ops2 db : run (ops1 ++ ops2) db = run ops2 (run ops1 db).
Proof. unfold run. apply foldl_app. Qed.

Lemma run_op_foreign_keys db o : foreign_keys (run_op db o) = foreign_keys db.
Proof.
  destruct o as [now t y g d|now mid r c|mid]; simpl; try done.
  destruct (add_rating_cases now mid r c db) as [->|(q & _ & _ & ->)]; done.
Qed.

Lemma run_foreign_keys ops db : foreign_keys (run ops db) = foreign_keys db.
Proof.
  revert db. induction ops as [|o ops IH]; intros db; [done|].
  simpl. change (foldl run_op (run_op db o) ops) with (run ops (run_op db o)).
  by rewrite IH, run_op_foreign_keys.
Qed.

Lemma reachable_foreign_keys db : reachable db → foreign_keys db = false.
Proof. intros [ops ->]. by rewrite run_foreign_keys. Qed.

Lemma run_op_ratings_in_range db o :
  ratings_in_range db → ratings_in_range (run_op db o).
Proof.
  unfold ratings_in_range. intros Hdb.
  destruct o as [now t y g d|now mid r c|mid]; simpl; [done| |].
  - destruct (add_rating_cases now mid r c db) as [->|(q & _ & Hq & ->)];
      [done|].
    simpl. apply map_Forall_insert_2; [|done].
    by apply check_rating_spec.
  - destruct (foreign_keys db && _); [|done].
    intros k r Hk. apply map_lookup_filter_Some in Hk as [Hk _].
    by apply (Hdb k r).
Qed.

Lemma run_ratings_in_range ops db :
  ratings_in_range db → ratings_in_range (run ops db).
Proof.
  revert db. induction ops as [|o ops IH]; intros db Hdb; [done|].
  simpl. apply IH. by apply run_op_ratings_in_range.
Qed.

Lemma reachable_from_ratings_in_range fk db :
  reachable_from fk db → ratings_in_range db.
Proof.
  intros [ops ->]. apply run_ratings_in_range.
  unfold ratings_in_range. simpl. apply map_Forall_empty.
Qed.



End histories.

(** ** The listings *)

Section listings.
Implicit Types (db : database) (g : movie_group).

Lemma elem_of_ratings_of mid db (kr : Z * ratings_row) :
  kr ∈ ratings_of mid db ↔
  ratings db !! kr.1 = Some kr.2 ∧ movie_id kr.2 = mid.
Proof.
  unfold ratings_of. rewrite list_elem_of_filter.
  destruct kr as [k r]. rewrite elem_of_map_to_list. simpl. tauto.
Qed.

Lemma elem_of_joined db g :
  g ∈ joined db ↔
  movies db !! g.1.1 = Some g.1.2 ∧ g.2 = ratings_of g.1.1 db.
Proof.
  unfold joined. rewrite list_elem_of_fmap. split.
  - intros ([k m] & -> & Hkm). simpl.
    by apply elem_of_map_to_list in Hkm.
  - intros [Hm Hr]. exists (g.1.1, g.1.2). split.
    + destruct g as [[k m] rs]. simpl in *. by rewrite Hr.
    + by apply elem_of_map_to_list.
Qed.








End listings.

(** ** GetMovieRatings *)

Section movie_ratings.
Implicit Types (db : database).

(** The tuples are the rows of [ratings] that carry the id, each once. *)
Lemma get_movie_ratings_rows mid db :
  get_movie_ratings mid db ≡ₚ
  (λ kr : Z * ratings_row, (rating kr.2, comment kr.2, date_rated kr.2))
    <$> ratings_of mid db.
Proof. unfold get_movie_ratings. by rewrite merge_sort_Permutation. Qed.

Lemma get_movie_ratings_complete mid db k r :
  ratings db !! k = Some r → movie_id r = mid →
  (rating r, comment r, date_rated r) ∈ get_movie_ratings mid db.
Proof.
  intros Hk Hmid. rewrite get_movie_ratings_rows.
  apply (list_elem_of_fmap_2' _ _ (k, r)); [|done].
  by apply elem_of_ratings_of.
Qed.

Lemma get_movie_ratings_sound mid db row :
  row ∈ get_movie_ratings mid db →
  ∃ k r, ratings db !! k = Some r ∧ movie_id r = mid ∧
         row = (rating r, comment r, date_rated r).
Proof.
  rewrite get_movie_ratings_rows, list_elem_of_fmap.
  intros ([k r] & -> & Hkr). apply elem_of_ratings_of in Hkr as [Hk Hmid].
  by exists k, r.
Qed.


(** The answer is empty exactly when no row of [ratings] carries the id. *)
Lemma get_movie_ratings_empty mid db :
  get_movie_ratings mid db = [] ↔
  ∀ k r, ratings db !! k = Some r → movie_id r ≠ mid.
Proof.
  split.
  - intros Hnil k r Hk Hmid.
    pose proof (get_movie_ratings_complete mid db k r Hk Hmid) as Hin.
    rewrite Hnil in Hin. by apply elem_of_nil in Hin.
  - intros Hnone. apply elem_of_nil_inv. intros row Hrow.
    apply get_movie_ratings_sound in Hrow as (k & r & Hk & Hmid & _).
    by apply (Hnone k r).
Qed.

(** In a store without orphan ratings an unknown movie has no ratings. *)
Lemma get_movie_ratings_integrity mid db :
  referential_integrity db → movies db !! mid = None →
  get_movie_ratings mid db = [].
Proof.
  intros Hri Hm. apply get_movie_ratings_empty. intros k r Hk Hmid.
  destruct (Hri k r Hk) as [m Hr]. rewrite Hmid, Hm in Hr. discriminate Hr.
Qed.

End movie_ratings.

(** ** What the declared foreign key does once it is enforced *)

Section enforced.
Implicit Types (db : database) (ops : list operation).

Lemma add_rating_enforced_cases now mid r c db :
  foreign_keys db = true →
  add_rating now mid r c db = (db, false) ∨
  ∃ q, r = PyFinite q ∧ is_Some (movies db !! mid) ∧
       add_rating now mid r c db = (with_rating now mid q c db, true).
Proof.
  intros Hfk.
  destruct (movies db !! mid) as [m|] eqn:Hm.
  - destruct (add_rating_cases now mid r c db) as [?|(q & ? & _ & ?)];
      [by left|].
    right. exists q. split; [done|]. split; [by eexists|done].
  - left. by apply add_rating_enforced_unknown_movie.
Qed.

Lemma run_op_referential_integrity db o :
  foreign_keys db = true →
  referential_integrity db → referential_integrity (run_op db o).
Proof.
  intros Hfk Hdb. destruct o as [now t y g d|now mid r c|mid]; simpl.
  - intros k r Hk. simpl in *.
    destruct (decide (next_rowid (movies db) (movies_seq db) = movie_id r))
      as [<-|Hne].
    + rewrite lookup_insert_eq. by eexists.
    + rewrite lookup_insert_ne by done. by apply (Hdb k).
  - destruct (add_rating_enforced_cases now mid r c db Hfk)
      as [->|(q & _ & Hm & ->)]; [done|].
    intros k r' Hk. simpl in *.
    destruct (decide (next_rowid (ratings db) (ratings_seq db) = k))
      as [<-|Hne].
    + rewrite lookup_insert_eq in Hk. by injection Hk as <-.
    + rewrite lookup_insert_ne in Hk by done. by apply (Hdb k).
  - rewrite Hfk. simpl.
    destruct (movies db !! mid) as [m|] eqn:Hm; simpl.
    + intros k r Hk. simpl in *.
      apply map_lookup_filter_Some in Hk as [Hk Hne]. simpl in Hne.
      rewrite lookup_delete_ne by done. by apply (Hdb k).
    + intros k r Hk. simpl in *.
      rewrite (delete_id _ _ Hm). by apply (Hdb k).
Qed.

(** On a connection that enforces foreign keys no rating is ever without
    its movie. *)
Lemma enforced_referential_integrity db :
  reachable_from true db → referential_integrity db.
Proof.
  intros [ops ->].
  assert (∀ db0, foreign_keys db0 = true → referential_integrity db0 →
                 referential_integrity (run ops db0)) as Hrun.
  { induction ops as [|o ops IH]; intros db0 Hfk Hdb0; [done|].
    simpl. apply IH.
    - by rewrite run_op_foreign_keys.
    - by apply run_op_referential_integrity. }
  apply Hrun; [done|].
  intros k r Hk. simpl in Hk. by rewrite lookup_empty in Hk.
Qed.

(** On such a connection the ratings of a deleted movie go with it. *)
Lemma delete_movie_enforced_cascade mid db :
  foreign_keys db = true → is_Some (movies db !! mid) →
  get_movie_ratings mid (delete_movie mid db).1 = [].
Proof.
  intros Hfk [m Hm]. apply get_movie_ratings_empty.
  intros k r Hk. unfold delete_movie in Hk. rewrite Hfk, Hm in Hk.
  simpl in Hk. by apply map_lookup_filter_Some in Hk as [_ Hne].
Qed.

(** On the connection the program opens, [add_rating] accepts every rating
    that passes the CHECK, whatever the movie id. *)
Lemma add_rating_any_movie now mid q c db :
  reachable db → check_rating q = true →
  add_rating now mid (PyFinite q) c db = (with_rating now mid q c db, true).
Proof.
  intros Hdb Hq. apply add_rating_accepts; [done|].
  left. by apply reachable_foreign_keys.
Qed.

(** On the connection the program opens, [delete_movie] never touches
    table [ratings]. *)
Lemma delete_movie_ratings_untouched mid db :
  foreign_keys db = false → ratings (delete_movie mid db).1 = ratings db.
Proof. intros Hfk. unfold delete_movie. by rewrite Hfk. Qed.

End enforced.

(** ** The title that the shell passes to [add_movie] *)

Lemma get_input_not_empty strip lines value rest :
  get_input strip lines = Some (value, rest) → value ≠ "".
Proof.
  induction lines as [|line lines IH]; simpl; [done|].
  destruct (strip line) as [|c v] eqn:Hline; [done|].
  by intros [= <- _].
Qed.

(** ** Claims on AddRating, AddMovie and DeleteMovie *)

(** C1, on the code as written: on the freshly opened store, where no movie
    exists, [add_rating] for movie 999 answers [True] and the row is in
    table [ratings], although no movie 999 exists; the store reached holds a
    rating without a movie. *)
Theorem add_rating_unknown_movie_inserts :
  let res :=
    add_rating "2024-05-01 10:00:00" 999 (PyFinite 5) None MovieDatabase in
  movies MovieDatabase !! 999 = None ∧
  res.2 = true ∧
  ratings res.1 !! 1 =
    Some (RatingsRow 999 5 None "2024-05-01 10:00:00") ∧
  size (ratings res.1) = 1%nat ∧
  movies res.1 !! 999 = None ∧
  reachable res.1 ∧
  ¬ referential_integrity res.1.
Proof.
  cbv zeta. repeat split; try (vm_compute; reflexivity).
  - by exists [AddRating "2024-05-01 10:00:00" 999 (PyFinite 5) None].
  - intros Hri.
    destruct (Hri 1 (RatingsRow 999 5 None "2024-05-01 10:00:00")) as [m Hm];
      [vm_compute; reflexivity|].
    vm_compute in Hm. discriminate Hm.
Qed.

(** C2, on the code as written: a movie with two ratings is deleted; the
    movie row goes, both rating rows stay, [get_movie_ratings] still lists
    them, and the store, a reachable one, holds ratings without a movie. *)
Theorem delete_movie_keeps_ratings :
  let db := run [AddMovie "2024-05-01 10:00:00" "Alien" (Some 1979) None None;
                 AddRating "2024-05-01 10:00:01" 1 (PyFinite 8) None;
                 AddRating "2024-05-01 10:00:02" 1 (PyFinite 6) (Some "slow")]
              MovieDatabase in
  let res := delete_movie 1 db in
  reachable res.1 ∧
  size (movies db) = 1%nat ∧ size (ratings db) = 2%nat ∧
  res.2 = true ∧
  size (movies res.1) = 0%nat ∧
  size (ratings res.1) = 2%nat ∧
  get_movie_ratings 1 res.1 =
    [(6%Q, Some "slow", "2024-05-01 10:00:02");
     (8%Q, None, "2024-05-01 10:00:01")] ∧
  ¬ referential_integrity res.1.
Proof.
  cbv zeta. repeat split; try (vm_compute; reflexivity).
  { exists [AddMovie "2024-05-01 10:00:00" "Alien" (Some 1979) None None;
            AddRating "2024-05-01 10:00:01" 1 (PyFinite 8) None;
            AddRating "2024-05-01 10:00:02" 1 (PyFinite 6) (Some "slow");
            DeleteMovie 1].
    reflexivity. }
  intros Hri.
  destruct (Hri 1 (RatingsRow 1 8 None "2024-05-01 10:00:01")) as [m Hm];
    [vm_compute; reflexivity|].
  vm_compute in Hm. discriminate Hm.
Qed.

(** C3: a rating in [0, 10] for an existing movie is accepted and stored in
    a fresh row; a rating below 0 or above 10 is refused with [False] and the
    store is left as it was; hence every stored rating of a reachable store
    lies in [0, 10]. *)
Theorem add_rating_range (now : string) (mid : Z) (c : option string)
    (db : database) :
  (∀ q, (0 <= q)%Q → (q <= 10)%Q → is_Some (movies db !! mid) →
     let res := add_rating now mid (PyFinite q) c db in
     res.2 = true ∧
     ∃ id, ratings db !! id = None ∧
           ratings res.1 = <[id := RatingsRow mid q c now]> (ratings db) ∧
           movies res.1 = movies db) ∧
  (∀ r, pyfloat_lt r (PyFinite 0) ∨ pyfloat_lt (PyFinite 10) r →
     add_rating now mid r c db = (db, false)) ∧
  (reachable db →
     ∀ k r, ratings db !! k = Some r → (0 <= rating r)%Q ∧ (rating r <= 10)%Q).
Proof.
  split; [|split].
  - intros q H0 H10 Hm. cbv zeta.
    rewrite add_rating_accepts; [|by apply check_rating_spec|by right].
    split; [done|].
    exists (next_rowid (ratings db) (ratings_seq db)).
    split; [apply next_rowid_fresh|done].
  - intros r Hr. destruct r as [q|n|]; simpl in Hr.
    + apply add_rating_check_fails.
      destruct (check_rating q) eqn:Hq; [|done].
      apply check_rating_spec in Hq as [H0 H10].
      destruct Hr as [Hr|Hr].
      * by apply Qlt_not_le in Hr.
      * by apply Qlt_not_le in Hr.
    + done.
    + by destruct Hr.
  - intros Hdb k r Hk.
    by apply (reachable_from_ratings_in_range
                sqlite_default_foreign_keys db Hdb k r).
Qed.

Lemma add_rating_range_witness :
  let db := (add_movie "2024-05-01 10:00:00" "Alien" None None None
               MovieDatabase).1 in
  (add_rating "2024-05-01 10:00:01" 1 (PyFinite (15 # 2)) None db).2 = true ∧
  add_rating "2024-05-01 10:00:01" 1 (PyFinite 11) None db = (db, false) ∧
  add_rating "2024-05-01 10:00:01" 1 (PyFinite (-1 # 2)) None db = (db, false).
Proof.
  cbv zeta.
  destruct (add_rating_range "2024-05-01 10:00:01" 1 None
              (add_movie "2024-05-01 10:00:00" "Alien" None None None
                 MovieDatabase).1)
    as (Hin & Hout & _).
  split; [|split].
  - apply (Hin (15 # 2)%Q).
    + vm_compute. discriminate.
    + vm_compute. discriminate.
    + vm_compute. eexists. reflexivity.
  - apply Hout. right. vm_compute. reflexivity.
  - apply Hout. left. vm_compute. reflexivity.
Defined.

(** C5, as stated, fails: [add_movie] with the empty title returns id 1 and
    the row with the empty title is in table [movies]. *)
Lemma add_movie_empty_title_inserted :
  let res :=
    add_movie "2024-05-01 10:00:00" "" None None None MovieDatabase in
  res.2 = 1 ∧
  movies res.1 ≠ movies MovieDatabase ∧
  size (movies res.1) = 1%nat ∧
  get_movie_by_id 1 res.1 =
    Some (1, "", None, None, None, "2024-05-01 10:00:00").
Proof.
  cbv zeta. repeat split; try (vm_compute; reflexivity).
  intros Heq. apply (f_equal size) in Heq. vm_compute in Heq. discriminate Heq.
Qed.

(** C5, amended: [add_movie] looks at no argument; for every title, the
    empty one included, it returns an id that was free and adds exactly the
    one row that carries the title. *)
Theorem add_movie_any_title (now t : string) (y : option Z)
    (g d : option string) (db : database) :
  let res := add_movie now t y g d db in
  movies db !! res.2 = None ∧
  movies res.1 = <[res.2 := MoviesRow t y g d now]> (movies db) ∧
  size (movies res.1) = S (size (movies db)) ∧
  ratings res.1 = ratings db.
Proof.
  cbv zeta. simpl.
  pose proof (next_rowid_fresh (movies db) (movies_seq db)) as Hfresh.
  repeat split; [done|].
  by apply map_size_insert_None.
Qed.




(** C7: the titles of the tuples of [get_all_movies], in the order
    returned, ascend in the BINARY collation, every title being at most each
    title after it; so do the titles of [search_movies] for every term. *)
Theorem listings_ordered_by_title (db : database) (search_term : string) :
  StronglySorted text_le (listed_title <$> get_all_movies db) ∧
  StronglySorted text_le (found_title <$> search_movies search_term db).
Proof.
  split; unfold get_all_movies, search_movies;
    rewrite <- list_fmap_compose;
    apply (StronglySorted_fmap _ by_title text_le);
    try (intros x y Hxy; exact Hxy);
    apply (StronglySorted_merge_sort by_title).
Qed.



(** C8, on the code as written: movie 7 does not exist, [add_rating] has
    stored a rating for it all the same, and [get_movie_ratings] answers
    with that rating instead of the empty list. *)
Theorem get_movie_ratings_unknown_movie :
  let db := (add_rating "2024-05-01 10:00:00" 7 (PyFinite 5) (Some "ghost")
               MovieDatabase).1 in
  reachable db ∧
  get_movie_by_id 7 db = None ∧
  get_movie_ratings 7 db = [(5%Q, Some "ghost", "2024-05-01 10:00:00")] ∧
  get_movie_ratings 7 db ≠ [].
Proof.
  cbv zeta. split.
  - by exists [AddRating "2024-05-01 10:00:00" 7 (PyFinite 5) (Some "ghost")].
  - vm_compute. repeat split; discriminate.
Qed.

(** ** Aggregates *)

Section aggregates.
Local Open Scope Q_scope.




Lemma ROUND2_compat (x y : Q) : x == y → ROUND2 x = ROUND2 y.
Proof.
  intros Hxy. unfold ROUND2.
  assert (Qle_bool 0 x = Qle_bool 0 y) as -> by (by rewrite Hxy).
  assert (Qfloor (x * 100 + (1 # 2)) = Qfloor (y * 100 + (1 # 2))) as ->
    by (by rewrite Hxy).
  assert (Qfloor (- x * 100 + (1 # 2)) = Qfloor (- y * 100 + (1 # 2))) as ->
    by (by rewrite Hxy).
  done.
Qed.

Lemma AVG_nil_iff (l : list Q) : AVG l = None ↔ l = [].
Proof. by destruct l. Qed.








End aggregates.



(** ** The scenarios of the specification, run on the model *)

Example scenario_inception :
  get_all_movies inception =
  [(1, "Inception", Some 2010, Some "Sci-Fi", Some "Christopher Nolan",
    Some (35 # 4)%Q, 2)].
Proof. vm_compute. reflexivity. Qed.

Example scenario_search_matrix :
  search_movies "Matrix" catalogue =
  [(3, "The Matrix", Some 1999, None, None, Some (429 # 50)%Q);
   (1, "The Matrix Reloaded", Some 2003, None, None, None)].
Proof. vm_compute. reflexivity. Qed.

Example scenario_search_ignores_ascii_case :
  search_movies "matrix" catalogue = search_movies "Matrix" catalogue.
Proof. vm_compute. reflexivity. Qed.

Example scenario_search_underscore :
  search_movies "_lien" catalogue = [(2, "Alien", Some 1979, None, None, None)].
Proof. vm_compute. reflexivity. Qed.

Example scenario_most_recent_first :
  get_movie_ratings 3 catalogue =
  [((33 # 4)%Q, None, "2024-05-01 10:00:05");
   ((17 # 2)%Q, None, "2024-05-01 10:00:04");
   (9%Q, None, "2024-05-01 10:00:03")].
Proof. vm_compute. reflexivity. Qed.

Example scenario_delete_on_empty_store :
  delete_movie 999 MovieDatabase = (MovieDatabase, false).
Proof. vm_compute. reflexivity. Qed.

Example scenario_like_characters :
  LIKE "é" "_" = true ∧ LIKE "é" "__" = false ∧ LIKE "axb" "a_b" = true ∧
  LIKE "abc" "a%c" = true ∧ LIKE "abc" "a%d" = false.
Proof. vm_compute. done. Qed.

(** * Beyond the claims *)

(** ** Lookups across the operations *)

Section lookups.
Implicit Types (db : database).

Lemma get_all_movies_row db id m :
  movies db !! id = Some m → listed_row db id m ∈ get_all_movies db.
Proof.
  intros Hm. unfold get_all_movies.
  apply (list_elem_of_fmap_2' _ _ (id, m, ratings_of id db)); [|done].
  rewrite merge_sort_Permutation. by apply elem_of_joined.
Qed.

Lemma get_all_movies_inv db row :
  row ∈ get_all_movies db →
  ∃ id m, movies db !! id = Some m ∧ row = listed_row db id m.
Proof.
  unfold get_all_movies. intros Hrow.
  apply list_elem_of_fmap in Hrow as (g & -> & Hg).
  rewrite merge_sort_Permutation in Hg.
  apply elem_of_joined in Hg as [Hgm Hgr].
  destruct g as [[k m] krs]. simpl in *. subst krs. by exists k, m.
Qed.

End lookups.



(** X2: [get_all_movies] has one tuple per row of [movies]: its ids are
    pairwise different, an id is listed exactly when [movies] has it, and
    the list is as long as the table. *)
Theorem get_all_movies_ids (db : database) :
  NoDup (listed_id <$> get_all_movies db) ∧
  (∀ id, id ∈ listed_id <$> get_all_movies db ↔ is_Some (movies db !! id)) ∧
  length (get_all_movies db) = size (movies db).
Proof.
  assert (listed_id <$> get_all_movies db ≡ₚ (map_to_list (movies db)).*1)
    as Hids.
  { unfold get_all_movies, joined.
    rewrite <- list_fmap_compose, merge_sort_Permutation.
    by rewrite <- list_fmap_compose. }
  split; [|split].
  - rewrite Hids. apply NoDup_fst_map_to_list.
  - intros id. rewrite Hids, list_elem_of_fmap. split.
    + intros ([k m] & -> & Hkm). apply elem_of_map_to_list in Hkm. by exists m.
    + intros [m Hm]. exists (id, m). split; [done|].
      by apply elem_of_map_to_list.
  - unfold get_all_movies, joined.
    rewrite length_fmap, merge_sort_Permutation, length_fmap.
    apply length_map_to_list.
Qed.

(** ** What [search_movies] finds *)

Section like.






End like.





(** ** Reading after writing *)

Section read_after_write.
Implicit Types (db : database).

Lemma ratings_of_with_rating now mid q c db mid' :
  ratings_of mid' (with_rating now mid q c db) ≡ₚ
  if decide (mid = mid')
  then (next_rowid (ratings db) (ratings_seq db), RatingsRow mid q c now)
         :: ratings_of mid' db
  else ratings_of mid' db.
Proof.
  unfold ratings_of. simpl.
  rewrite map_to_list_insert by apply next_rowid_fresh.
  rewrite filter_cons. simpl.
  by destruct (decide (mid = mid')).
Qed.


End read_after_write.

(** X5: when [add_rating] answers [True], [get_movie_ratings] of that movie
    id holds the new tuple and the tuples it held before, and nothing else;
    for every other id it holds what it held before. *)
Theorem add_rating_get_movie_ratings (now : string) (mid : Z) (r : pyfloat)
    (c : option string) (db : database) :
  (add_rating now mid r c db).2 = true →
  ∃ q, r = PyFinite q ∧
       get_movie_ratings mid (add_rating now mid r c db).1 ≡ₚ
         (q, c, now) :: get_movie_ratings mid db ∧
       ∀ mid', mid' ≠ mid →
         get_movie_ratings mid' (add_rating now mid r c db).1 ≡ₚ
           get_movie_ratings mid' db.
Proof.
  intros Hok.
  destruct (add_rating_cases now mid r c db) as [Hno|(q & -> & _ & Hyes)].
  { rewrite Hno in Hok. discriminate Hok. }
  exists q. split; [done|]. rewrite Hyes. cbn [fst]. split.
  - rewrite !get_movie_ratings_rows, ratings_of_with_rating.
    by rewrite decide_True.
  - intros mid' Hne.
    rewrite !get_movie_ratings_rows, ratings_of_with_rating.
    by rewrite decide_False.
Qed.

Lemma add_rating_get_movie_ratings_witness :
  ∃ q, PyFinite 7 = PyFinite q ∧
       get_movie_ratings 2 (add_rating "2024-05-01 10:00:06" 2 (PyFinite 7)
                              None catalogue).1 ≡ₚ
         (q, None, "2024-05-01 10:00:06") :: get_movie_ratings 2 catalogue ∧
       ∀ mid', mid' ≠ 2 →
         get_movie_ratings mid' (add_rating "2024-05-01 10:00:06" 2
                                   (PyFinite 7) None catalogue).1 ≡ₚ
           get_movie_ratings mid' catalogue.
Proof.
  apply (add_rating_get_movie_ratings "2024-05-01 10:00:06" 2 (PyFinite 7)
           None catalogue).
  vm_compute. reflexivity.
Defined.



(** X7: on the connection the program opens, [get_all_movies] after
    [delete_movie] is [get_all_movies] before it without the tuple of the
    deleted id; the tuples of the other movies, averages and counts
    included, are the same. *)
Theorem delete_movie_get_all_movies (db : database) (mid : Z)
    (row : Z * string * option Z * option string * option string * option Q * Z) :
  reachable db →
  (row ∈ get_all_movies (delete_movie mid db).1 ↔
   row ∈ get_all_movies db ∧ listed_id row ≠ mid).
Proof.
  intros Hdb. apply reachable_foreign_keys in Hdb.
  assert (∀ id m, listed_row (delete_movie mid db).1 id m = listed_row db id m)
    as Hsame.
  { intros id m. unfold listed_row, ratings_of.
    by rewrite (delete_movie_ratings_untouched _ _ Hdb). }
  split.
  - intros Hrow. apply get_all_movies_inv in Hrow as (id & m & Hm & ->).
    rewrite Hsame. simpl in Hm. apply lookup_delete_Some in Hm as [Hne Hm].
    split; [by apply get_all_movies_row|]. by intros <-.
  - intros [Hrow Hne]. apply get_all_movies_inv in Hrow as (id & m & Hm & ->).
    rewrite <- Hsame. apply get_all_movies_row. simpl.
    apply lookup_delete_Some. split; [|done]. by intros <-.
Qed.

Lemma delete_movie_get_all_movies_witness :
  (2, "Alien", Some 1979, None, None, None, 0) ∈
    get_all_movies (delete_movie 3 catalogue).1.
Proof.
  apply (delete_movie_get_all_movies catalogue 3).
  - exists [AddMovie "2024-05-01 10:00:00" "The Matrix Reloaded" (Some 2003)
              None None;
            AddMovie "2024-05-01 10:00:01" "Alien" (Some 1979) None None;
            AddMovie "2024-05-01 10:00:02" "The Matrix" (Some 1999) None None;
            AddRating "2024-05-01 10:00:03" 3 (PyFinite 9) None;
            AddRating "2024-05-01 10:00:04" 3 (PyFinite (17 # 2)) None;
            AddRating "2024-05-01 10:00:05" 3 (PyFinite (33 # 4)) None].
    reflexivity.
  - split; [|discriminate].
    vm_compute. apply list_elem_of_here.
Defined.

(** ** Ids are handed out in sequence *)

Section sequence.
Implicit Types (db : database) (ops : list operation).

Lemma max_rowid_le {A} (t : gmap Z A) (b : Z) :
  0 ≤ b → (∀ k, is_Some (t !! k) → k ≤ b) → max_rowid t ≤ b.
Proof.
  intros Hb. unfold max_rowid.
  apply (map_fold_weak_ind
           (λ r t, (∀ k, is_Some (t !! k) → k ≤ b) → r ≤ b)); [done|].
  intros i x m r Hi IH Hkeys.
  assert (i ≤ b) by (apply Hkeys; rewrite lookup_insert_eq; by eexists).
  assert (r ≤ b); [|lia].
  apply IH. intros k Hk. apply Hkeys.
  apply lookup_insert_is_Some'. by right.
Qed.

Lemma next_rowid_in_sequence {A} (t : gmap Z A) (seq : Z) :
  0 ≤ seq → (∀ k, is_Some (t !! k) → 0 < k ≤ seq) →
  next_rowid t seq = seq + 1.
Proof.
  intros Hseq Hkeys. unfold next_rowid.
  assert (max_rowid t ≤ seq); [|lia].
  apply max_rowid_le; [done|]. intros k Hk. by apply Hkeys.
Qed.

Lemma run_op_rowids_in_sequence db o :
  rowids_in_sequence db → rowids_in_sequence (run_op db o).
Proof.
  intros (Hm0 & Hr0 & Hm & Hr).
  destruct o as [now t y g d|now mid r c|mid]; simpl.
  - unfold rowids_in_sequence. simpl.
    rewrite (next_rowid_in_sequence _ _ Hm0 Hm).
    repeat split; try lia; try (by apply Hr).
    + apply lookup_insert_is_Some' in H as [<-|Hk]; [lia|].
      apply Hm in Hk. lia.
    + apply lookup_insert_is_Some' in H as [<-|Hk]; [lia|].
      apply Hm in Hk. lia.
  - destruct (add_rating_cases now mid r c db) as [->|(q & _ & _ & ->)];
      [done|].
    unfold rowids_in_sequence. simpl.
    rewrite (next_rowid_in_sequence _ _ Hr0 Hr).
    repeat split; try lia; try (by apply Hm).
    + apply lookup_insert_is_Some' in H as [<-|Hk]; [lia|].
      apply Hr in Hk. lia.
    + apply lookup_insert_is_Some' in H as [<-|Hk]; [lia|].
      apply Hr in Hk. lia.
  - unfold rowids_in_sequence. simpl. split; [done|]. split; [done|]. split.
    + intros k Hk. apply lookup_delete_is_Some in Hk as [_ Hk]. by apply Hm.
    + intros k [r Hk]. apply Hr.
      destruct (foreign_keys db && _); [|by eexists].
      apply map_lookup_filter_Some in Hk as [Hk _]. by eexists.
Qed.

Lemma run_rowids_in_sequence ops db :
  rowids_in_sequence db → rowids_in_sequence (run ops db).
Proof.
  revert db. induction ops as [|o ops IH]; intros db Hdb; [done|].
  simpl. apply IH. by apply run_op_rowids_in_sequence.
Qed.

Lemma open_database_rowids_in_sequence fk :
  rowids_in_sequence (open_database fk).
Proof.
  unfold rowids_in_sequence. simpl. repeat split; try lia.
  all: destruct H as [x Hx]; by rewrite lookup_empty in Hx.
Qed.


End sequence.

Lemma rowids_in_sequence_reachable (fk : bool) (db : database) :
  reachable_from fk db → rowids_in_sequence db.
Proof.
  intros [ops ->]. apply run_rowids_in_sequence.
  apply open_database_rowids_in_sequence.
Qed.

(** X8: in every state of the store, with or without foreign-key
    enforcement, the ids of both tables are positive and at most the
    AUTOINCREMENT counter of their table, and the counters are not
    negative. *)
Theorem reachable_rowids_in_sequence (fk : bool) (db : database) :
  reachable_from fk db → rowids_in_sequence db.
Proof. apply rowids_in_sequence_reachable. Qed.

Lemma reachable_rowids_in_sequence_witness : rowids_in_sequence catalogue.
Proof.
  apply (reachable_rowids_in_sequence sqlite_default_foreign_keys).
  exists [AddMovie "2024-05-01 10:00:00" "The Matrix Reloaded" (Some 2003)
            None None;
          AddMovie "2024-05-01 10:00:01" "Alien" (Some 1979) None None;
          AddMovie "2024-05-01 10:00:02" "The Matrix" (Some 1999) None None;
          AddRating "2024-05-01 10:00:03" 3 (PyFinite 9) None;
          AddRating "2024-05-01 10:00:04" 3 (PyFinite (17 # 2)) None;
          AddRating "2024-05-01 10:00:05" 3 (PyFinite (33 # 4)) None].
  reflexivity.
Defined.


(** ** The prompt *)

Section prompt.
Context {A : Type} (strip : string → string) (input_type : string → option A).

Lemma get_input_lines_length required lines :
  (length (get_input_lines strip required input_type lines).2 ≤ length lines)%nat
  ∧ (is_Some (get_input_lines strip required input_type lines).1 →
     length (get_input_lines strip required input_type lines).2 < length lines)%nat.
Proof.
  induction lines as [|line lines [IH1 IH2]]; simpl.
  - split; [done|]. by intros [? ?].
  - destruct (strip line) as [|c v]; [destruct required|];
      [|simpl; split; lia| destruct (input_type _); [simpl; split; lia|]];
      split; try lia; intros Hs; specialize (IH2 Hs); lia.
Qed.

End prompt.

Lemma get_input_lines_spec {A : Type} (strip : string → string)
    (input_type : string → option A) (required : bool) (lines : list string) :
  match get_input_lines strip required input_type lines with
  | (Some (Some a), rest) =>
      ∃ before line,
        lines = (before ++ line :: rest)%list ∧
        Forall (skipped strip input_type required) before ∧
        strip line ≠ "" ∧ input_type (strip line) = Some a
  | (Some None, rest) =>
      required = false ∧
      ∃ before line,
        lines = (before ++ line :: rest)%list ∧
        Forall (skipped strip input_type required) before ∧
        strip line = ""
  | (None, rest) =>
      rest = [] ∧ Forall (skipped strip input_type required) lines
  end.
Proof.
  induction lines as [|line lines IH]; simpl; [done|].
  destruct (strip line) as [|c v] eqn:Hline.
  - destruct required.
    + destruct (get_input_lines strip true input_type lines) as [[[a|]|] rest].
      * destruct IH as (before & l & -> & Hb & Hl).
        exists (line :: before), l. split; [done|].
        split; [|done]. constructor; [|done]. left. by rewrite Hline.
      * by destruct IH as [? _].
      * destruct IH as [-> Hb]. split; [done|].
        constructor; [|done]. left. by rewrite Hline.
    + split; [done|]. exists [], line. by rewrite Hline.
  - destruct (input_type (String c v)) as [a|] eqn:Hconv.
    + exists [], line. rewrite Hline. by repeat split.
    + assert (skipped strip input_type required line) as Hskip.
      { right. by rewrite Hline. }
      destruct (get_input_lines strip required input_type lines)
        as [[[a|]|] rest].
      * destruct IH as (before & l & -> & Hb & Hl).
        exists (line :: before), l. split; [done|].
        split; [|done]. by constructor.
      * destruct IH as (Hreq & before & l & -> & Hb & Hl).
        split; [done|]. exists (line :: before), l. split; [done|].
        split; [|done]. by constructor.
      * destruct IH as [-> Hb]. split; [done|]. by constructor.
Qed.

(** X10: [get_input] returns the first line that it can accept and skips
    exactly the lines before it.  The lines typed split into skipped lines
    (empty after [strip] where a value is required, or not convertible),
    the accepted line and the lines left; the value is the conversion of
    the accepted line, stripped, which is not empty; for an optional field
    an empty line is accepted as [None].  When no line can be accepted the
    input runs out. *)
Theorem get_input_lines_first_accepted {A : Type} (strip : string → string)
    (input_type : string → option A) (required : bool) (lines : list string) :
  match get_input_lines strip required input_type lines with
  | (Some (Some a), rest) =>
      ∃ before line,
        lines = (before ++ line :: rest)%list ∧
        Forall (skipped strip input_type required) before ∧
        strip line ≠ "" ∧ input_type (strip line) = Some a
  | (Some None, rest) =>
      required = false ∧
      ∃ before line,
        lines = (before ++ line :: rest)%list ∧
        Forall (skipped strip input_type required) before ∧
        strip line = ""
  | (None, rest) =>
      rest = [] ∧ Forall (skipped strip input_type required) lines
  end.
Proof. apply get_input_lines_spec. Qed.

(** ** A session of the console *)

Section session_logic.
Implicit Types (w : world) (db : database).

Lemma follows_refl w : follows w w.
Proof.
  split; [done|]. split; [|done]. exists []. by rewrite app_nil_r.
Qed.

Lemma follows_trans w1 w2 w3 : follows w1 w2 → follows w2 w3 → follows w1 w3.
Proof.
  intros (Hd1 & (l1 & Ho1 & Hl1) & Hi1) (Hd2 & (l2 & Ho2 & Hl2) & Hi2).
  split; [by etrans|]. split; [|lia].
  exists (l1 ++ l2)%list. split.
  - by rewrite Ho2, Ho1, app_assoc.
  - by apply Forall_app.
Qed.

(** A world that differs in the input only. *)
Lemma follows_input w lines :
  (length lines ≤ length (stdin w))%nat →
  follows w (World lines (self_db w) (statements w) (stdout w)).
Proof.
  intros Hlen. split; [done|]. split; [|done].
  exists []. simpl. by rewrite app_nil_r.
Qed.

Lemma triple_ret {A} (P : world → Prop) (a : A) :
  triple P (ret a) (λ b w, b = a ∧ P w).
Proof.
  intros w HP. split; [apply follows_refl|]. by intros b [= <-].
Qed.

Lemma triple_raise {A} (P : world → Prop) (Q : A → world → Prop) :
  triple P raise Q.
Proof. intros w HP. split; [apply follows_refl|done]. Qed.

Lemma triple_bound {A} (P : world → Prop) (z : option Z) (m : shell A)
    (Q : A → world → Prop) :
  triple P m Q → triple P (bound z m) Q.
Proof.
  intros Hm. unfold bound. destruct z as [z|]; [|done].
  destruct (fits_INTEGER z); [done|apply triple_raise].
Qed.

Lemma triple_bind {A B} (P : world → Prop) (m : shell A)
    (Q : A → world → Prop) (k : A → shell B) (R : B → world → Prop) :
  triple P m Q → (∀ a, triple (Q a) (k a) R) → triple P (bind m k) R.
Proof.
  intros Hm Hk w HP. unfold bind.
  destruct (Hm w HP) as [Hf HQ].
  destruct (m w) as [[a|] w1]; simpl in *; [|done].
  destruct (Hk a w1 (HQ a eq_refl)) as [Hf' HR].
  split; [by eapply follows_trans|done].
Qed.

Lemma triple_conseq {A} (P P' : world → Prop) (m : shell A)
    (Q Q' : A → world → Prop) :
  (∀ w, P' w → P w) → (∀ a w, Q a w → Q' a w) →
  triple P m Q → triple P' m Q'.
Proof.
  intros HP HQ Hm w HP'. destruct (Hm w (HP w HP')) as [Hf Hq].
  split; [done|]. intros a Ha. by apply HQ, Hq.
Qed.

(** To start anywhere it is enough to start at every store. *)
Lemma triple_at {A} (m : shell A) (Q : A → world → Prop) :
  (∀ db, triple (λ w, self_db w = db) m Q) → triple (λ _, True) m Q.
Proof. intros Hm w _. by apply (Hm (self_db w)). Qed.

Lemma triple_input db :
  triple (λ w, self_db w = db) input (λ _ w, self_db w = db).
Proof.
  intros w Hdb. unfold input. destruct (stdin w) as [|line rest] eqn:Hin.
  - split; [apply follows_refl|done].
  - simpl. split; [|done]. apply follows_input. rewrite Hin. simpl. lia.
Qed.

Lemma triple_print db (m : message) :
  ¬ failure m →
  triple (λ w, self_db w = db) (print m) (λ _ w, self_db w = db).
Proof.
  intros Hm w Hdb. unfold print. simpl. split; [|done].
  split; [done|]. split; [|done]. exists [m]. split; [done|]. by constructor.
Qed.

Lemma triple_db_query {A} db (q : database → A) :
  triple (λ w, self_db w = db) (db_query q)
    (λ a w, a = q db ∧ self_db w = db).
Proof.
  intros w Hdb. unfold db_query. simpl. split; [apply follows_refl|].
  intros a [= <-]. by rewrite Hdb.
Qed.

Lemma triple_db_get_movie_by_id db mid :
  triple (λ w, self_db w = db) (db_get_movie_by_id mid)
    (λ a w, a = get_movie_by_id mid db ∧ self_db w = db).
Proof. apply triple_bound, triple_db_query. Qed.

Lemma triple_db_get_movie_ratings db mid :
  triple (λ w, self_db w = db) (db_get_movie_ratings mid)
    (λ a w, a = get_movie_ratings mid db ∧ self_db w = db).
Proof. apply triple_bound, triple_db_query. Qed.

Lemma triple_db_add_movie py db t y g d :
  t ≠ "" →
  triple (λ w, self_db w = db) (db_add_movie py t y g d) (λ _ _, True).
Proof.
  intros Ht. unfold db_add_movie. apply triple_bound.
  intros w Hdb. simpl. split; [|done].
  split; [|split; [|done]].
  - simpl. apply rtc_once. by apply console_add_movie.
  - exists []. simpl. by rewrite app_nil_r.
Qed.

Lemma triple_db_add_rating py db mid r c :
  is_Some (movies db !! mid) → between_0_and_10 r = true →
  triple (λ w, self_db w = db) (db_add_rating py mid r c)
    (λ ok _, ok = true).
Proof.
  intros Hm Hr. unfold db_add_rating. apply triple_bound. intros w <-.
  destruct r as [q| |]; try done.
  change (check_rating q = true) in Hr.
  split.
  - split; [|split; [|done]].
    + simpl. apply rtc_once. by apply console_add_rating.
    + exists []. simpl. by rewrite app_nil_r.
  - intros ok. simpl.
    rewrite add_rating_accepts by (done || by right). by intros [= <-].
Qed.

Lemma triple_db_delete_movie db mid :
  is_Some (movies db !! mid) →
  triple (λ w, self_db w = db) (db_delete_movie mid) (λ ok _, ok = true).
Proof.
  intros Hm. unfold db_delete_movie. apply triple_bound. intros w <-. split.
  - split; [|split; [|done]].
    + simpl. apply rtc_once. by apply console_delete_movie.
    + exists []. simpl. by rewrite app_nil_r.
  - intros ok [= <-]. unfold delete_movie. simpl.
    destruct Hm as [m ->]. done.
Qed.

End session_logic.

Section session_methods.
Context (py : runtime).
Implicit Types (w : world) (db : database).

Local Abbreviation at_db db := (λ w : world, self_db w = db).
Local Abbreviation anywhere := (λ _ : world, True).

Lemma triple_fact {A} (fact : Prop) (P : world → Prop) (m : shell A)
    (Q : A → world → Prop) :
  (fact → triple P m Q) → triple (λ w, fact ∧ P w) m Q.
Proof. intros Hm w [Hf HP]. by apply Hm. Qed.

Lemma triple_assume {A} (fact : Prop) (m : shell A) (Q : A → world → Prop) :
  (fact → triple anywhere m Q) → triple (λ _, fact) m Q.
Proof. intros Hm w Hf. by apply Hm. Qed.

Lemma triple_forget {A} (P : world → Prop) (m : shell A)
    (Q : A → world → Prop) :
  triple anywhere m Q → triple P m Q.
Proof. intros Hm w _. by apply Hm. Qed.

Lemma triple_return {A} (P : world → Prop) (a : A) (Q : A → world → Prop) :
  (∀ w, P w → Q a w) → triple P (ret a) Q.
Proof.
  intros HQ w HP. split; [apply follows_refl|]. intros b [= <-]. by apply HQ.
Qed.

Lemma triple_done {A} (P : world → Prop) (m : shell A)
    (Q : A → world → Prop) :
  triple P m Q → triple P m (λ _ _, True).
Proof. intros Hm w HP. by destruct (Hm w HP). Qed.

Lemma triple_fuel {A} (P : world → Prop) (loop : nat → shell A)
    (Q : A → world → Prop) (fuel : world → nat) :
  (∀ n, triple P (loop n) Q) → triple P (λ w, loop (fuel w) w) Q.
Proof. intros Hloop w HP. by apply Hloop. Qed.

Lemma triple_get_input {A} db required (input_type : string → option A) :
  triple (at_db db) (MovieRatingApp.get_input py required input_type)
    (λ _, at_db db).
Proof.
  intros w Hdb. unfold MovieRatingApp.get_input. simpl. split; [|done].
  apply follows_input. apply get_input_lines_length.
Qed.

Lemma triple_the_get_input_str db :
  triple (at_db db) (the (MovieRatingApp.get_input py true str))
    (λ a w, a ≠ "" ∧ self_db w = db).
Proof.
  intros w Hdb. unfold the, bind, MovieRatingApp.get_input.
  pose proof (get_input_lines_spec (str_strip py) str true (stdin w))
    as Hspec.
  pose proof (get_input_lines_length (str_strip py) str true (stdin w))
    as [Hlen _].
  destruct (get_input_lines (str_strip py) true str (stdin w))
    as [[[x|]|] rest]; simpl in *.
  - split; [by apply follows_input|]. intros a [= <-].
    destruct Hspec as (before & line & _ & _ & Hne & [= <-]). done.
  - split; [by apply follows_input|]. done.
  - split; [by apply follows_input|]. done.
Qed.

Lemma triple_the {A} (P : world → Prop) (m : shell (option A))
    (Q : world → Prop) :
  triple P m (λ _, Q) → triple P (the m) (λ _, Q).
Proof.
  intros Hm. unfold the. eapply triple_bind; [exact Hm|].
  intros [a|].
  - by apply triple_return.
  - apply triple_raise.
Qed.

Lemma triple_press_enter db :
  triple (at_db db) (_ <- input ;; ret tt)%shell (λ _, at_db db).
Proof.
  eapply triple_bind; [apply triple_input|]. intros ?.
  by apply triple_return.
Qed.

Lemma triple_rating_loop db fuel :
  triple (at_db db) (MovieRatingApp.rating_loop py fuel)
    (λ r w, between_0_and_10 r = true ∧ self_db w = db).
Proof.
  induction fuel as [|fuel IH]; simpl; [apply triple_raise|].
  eapply triple_bind; [apply triple_the, triple_get_input|].
  intros r. destruct (between_0_and_10 r) eqn:Hr.
  - by apply triple_return.
  - eapply triple_bind; [by apply triple_print; intros [|]|].
    intros ?. exact IH.
Qed.

(** [add_rating_to_movie] *)
Lemma triple_add_rating_to_movie movie_id :
  triple anywhere (MovieRatingApp.add_rating_to_movie py movie_id)
    (λ _ _, True).
Proof.
  apply triple_at. intros db. unfold MovieRatingApp.add_rating_to_movie.
  eapply (triple_bind _ _ (λ _, at_db db)).
  { destruct movie_id as [id|].
    - by apply triple_return.
    - apply triple_the, triple_get_input. }
  intros id. eapply triple_bind; [apply triple_db_get_movie_by_id|].
  intros movie. apply triple_fact. intros ->.
  destruct (get_movie_by_id id db) as [movie|] eqn:Hmovie.
  - assert (is_Some (movies db !! id)) as Hm.
    { unfold get_movie_by_id in Hmovie.
      destruct (movies db !! id); [by eexists|done]. }
    eapply triple_bind; [apply triple_fuel, triple_rating_loop|].
    intros r. apply triple_fact. intros Hr.
    eapply triple_bind; [apply triple_get_input|]. intros c.
    eapply triple_bind; [by apply triple_db_add_rating|]. intros ok.
    cbv beta. apply triple_assume. intros ->. apply triple_at. intros db'.
    eapply triple_bind; [by apply triple_print; intros [|]|]. intros ?.
    eapply triple_done, triple_press_enter.
  - eapply triple_bind; [by apply triple_print; intros [|]|]. intros ?.
    eapply triple_done, triple_press_enter.
Qed.

(** [add_movie] *)
Lemma triple_add_movie :
  triple anywhere (MovieRatingApp.add_movie py) (λ _ _, True).
Proof.
  apply triple_at. intros db. unfold MovieRatingApp.add_movie.
  eapply triple_bind; [apply triple_the_get_input_str|]. intros t.
  apply triple_fact. intros Ht.
  eapply triple_bind; [apply triple_get_input|]. intros y.
  eapply triple_bind; [apply triple_get_input|]. intros g.
  eapply triple_bind; [apply triple_get_input|]. intros d.
  eapply triple_bind; [by apply triple_db_add_movie|]. intros id.
  apply triple_at. intros db'.
  eapply triple_bind; [by apply triple_print; intros [|]|]. intros ?.
  eapply triple_bind; [apply triple_the, triple_get_input|]. intros answer.
  destruct (String.eqb _ _).
  - apply triple_forget, triple_add_rating_to_movie.
  - eapply triple_done, triple_press_enter.
Qed.

(** [view_all_movies], [search_movies] and [view_movie_details] *)
Lemma triple_view_all_movies :
  triple anywhere MovieRatingApp.view_all_movies (λ _ w, True).
Proof.
  apply triple_at. intros db. unfold MovieRatingApp.view_all_movies.
  eapply triple_bind; [apply triple_db_query|]. intros rows.
  apply triple_fact. intros _.
  eapply triple_bind; [by apply triple_print; intros [|]|]. intros ?.
  eapply triple_done, triple_press_enter.
Qed.

Lemma triple_search_movies :
  triple anywhere (MovieRatingApp.search_movies py) (λ _ w, True).
Proof.
  apply triple_at. intros db. unfold MovieRatingApp.search_movies.
  eapply triple_bind; [apply triple_the, triple_get_input|]. intros term.
  eapply triple_bind; [apply triple_db_query|]. intros rows.
  apply triple_fact. intros _.
  eapply triple_bind; [by apply triple_print; intros [|]|]. intros ?.
  eapply triple_done, triple_press_enter.
Qed.

Lemma triple_view_movie_details :
  triple anywhere (MovieRatingApp.view_movie_details py) (λ _ w, True).
Proof.
  apply triple_at. intros db. unfold MovieRatingApp.view_movie_details.
  eapply triple_bind; [apply triple_the, triple_get_input|]. intros id.
  eapply triple_bind; [apply triple_db_get_movie_by_id|]. intros movie.
  apply triple_fact. intros _. destruct movie as [movie|].
  - eapply triple_bind; [apply triple_db_get_movie_ratings|]. intros rows.
    apply triple_fact. intros _.
    eapply triple_bind; [by apply triple_print; intros [|]|]. intros ?.
    eapply triple_done, triple_press_enter.
  - eapply triple_bind; [by apply triple_print; intros [|]|]. intros ?.
    eapply triple_done, triple_press_enter.
Qed.

(** [delete_movie] *)
Lemma triple_delete_movie :
  triple anywhere (MovieRatingApp.delete_movie py) (λ _ w, True).
Proof.
  apply triple_at. intros db. unfold MovieRatingApp.delete_movie.
  eapply triple_bind; [apply triple_the, triple_get_input|]. intros id.
  eapply triple_bind; [apply triple_db_get_movie_by_id|]. intros movie.
  apply triple_fact. intros ->.
  destruct (get_movie_by_id id db) as [movie|] eqn:Hmovie.
  - assert (is_Some (movies db !! id)) as Hm.
    { unfold get_movie_by_id in Hmovie.
      destruct (movies db !! id); [by eexists|done]. }
    eapply triple_bind; [apply triple_the, triple_get_input|]. intros confirm.
    eapply (triple_bind _ _ (λ _ _, True)).
    + destruct (String.eqb _ _).
      * eapply triple_bind; [by apply triple_db_delete_movie|]. intros ok.
        cbv beta. apply triple_assume. intros ->. apply triple_at. intros db'.
        eapply triple_done. by apply triple_print; intros [|].
      * eapply triple_done. by apply triple_print; intros [|].
    + intros ?. apply triple_at. intros db'.
      eapply triple_done, triple_press_enter.
  - eapply triple_bind; [by apply triple_print; intros [|]|]. intros ?.
    eapply triple_done, triple_press_enter.
Qed.

(** [run] *)
Lemma triple_run_loop fuel :
  triple anywhere (MovieRatingApp.run_loop py fuel) (λ _ w, True).
Proof.
  induction fuel as [|fuel IH]; simpl; [apply triple_raise|].
  apply triple_at. intros db.
  eapply triple_bind; [apply triple_the, triple_get_input|]. intros choice.
  apply triple_forget.
  repeat (destruct (String.eqb choice _);
          [eapply triple_bind;
           [first [apply triple_add_movie | apply triple_view_all_movies
                  | apply triple_search_movies
                  | apply triple_add_rating_to_movie
                  | apply triple_view_movie_details
                  | apply triple_delete_movie]
           |intros ?; apply triple_forget, IH]|]).
  destruct (String.eqb choice _).
  - apply triple_at. intros db'.
    eapply triple_done. by apply triple_print; intros [|].
  - apply triple_at. intros db'.
    eapply triple_bind; [by apply triple_print; intros [|]|]. intros ?.
    eapply triple_bind; [apply triple_input|]. intros ?.
    apply triple_forget, IH.
Qed.

Lemma follows_run w : follows w (MovieRatingApp.run py w).2.
Proof.
  unfold MovieRatingApp.run.
  by apply (triple_run_loop (length (stdin w)) w).
Qed.

End session_methods.

(** ** What a session leaves in the store *)

Section session_store.
Implicit Types (db : database).

Lemma console_step_well_numbered db db' :
  console_step db db' → well_numbered db → well_numbered db'.
Proof.
  intros Hstep [Hrow Hrat]. split.
  - destruct Hstep as [now t y g d db _|now mid q c db _ _|mid db _].
    + apply (run_op_rowids_in_sequence db (AddMovie now t y g d) Hrow).
    + apply (run_op_rowids_in_sequence db
               (AddRating now mid (PyFinite q) c) Hrow).
    + apply (run_op_rowids_in_sequence db (DeleteMovie mid) Hrow).
  - destruct Hrow as (Hm0 & Hr0 & Hm & Hr).
    destruct Hstep as [now t y g d db _|now mid q c db Hmid Hq|mid db _].
    + intros k r Hk. simpl in *. specialize (Hrat k r Hk).
      pose proof (next_rowid_above_seq (movies db) (movies_seq db)). lia.
    + rewrite add_rating_accepts by (done || by right).
      intros k r. simpl.
      rewrite lookup_insert_Some. intros [[_ <-]|[_ Hk]].
      * simpl. by apply Hm.
      * by apply (Hrat k r).
    + intros k r Hk. simpl in *. apply (Hrat k r).
      destruct (foreign_keys db && _); [|done].
      by apply map_lookup_filter_Some in Hk as [Hk _].
Qed.

Lemma console_steps_well_numbered db db' :
  rtc console_step db db' → well_numbered db → well_numbered db'.
Proof.
  induction 1 as [|db1 db2 db3 Hstep _ IH]; [done|].
  intros Hdb. apply IH. by apply (console_step_well_numbered db1).
Qed.

(** A movie just added to a well-numbered store has no ratings. *)
Lemma new_movie_unrated now t y g d db :
  well_numbered db →
  get_movie_ratings (add_movie now t y g d db).2 (add_movie now t y g d db).1
  = [].
Proof.
  intros [_ Hrat]. apply get_movie_ratings_empty. intros k r Hk Hid.
  simpl in *. specialize (Hrat k r Hk).
  pose proof (next_rowid_above_seq (movies db) (movies_seq db)). lia.
Qed.

Lemma console_steps_titles_not_empty db db' :
  rtc console_step db db' → titles_not_empty db → titles_not_empty db'.
Proof.
  induction 1 as [|db1 db2 db3 Hstep _ IH]; [done|].
  intros Hdb. apply IH. clear IH.
  destruct Hstep as [now t y g d db Ht|now mid q c db Hmid Hq|mid db _].
  - intros k m. simpl. rewrite lookup_insert_Some.
    intros [[_ <-]|[_ Hk]]; [done|]. by apply (Hdb k).
  - rewrite add_rating_accepts by (done || by right). exact Hdb.
  - intros k m. simpl. rewrite lookup_delete_Some. intros [_ Hk].
    by apply (Hdb k).
Qed.

Lemma MovieDatabase_well_numbered : well_numbered MovieDatabase.
Proof.
  split; [apply (open_database_rowids_in_sequence _)|].
  intros k r Hk. simpl in Hk. by rewrite lookup_empty in Hk.
Qed.

End session_store.

(** X11: whatever is typed, a session of the console never prints
    "Failed to add rating" nor "Failed to delete movie": [run] only adds
    lines to the output, and none of the added lines is one of the two. *)
Theorem console_reports_no_failure (py : runtime) (w : world) :
  ∃ l, stdout (MovieRatingApp.run py w).2 = (stdout w ++ l)%list ∧
       (RatingFailed ∉ l) ∧ (DeleteFailed ∉ l).
Proof.
  destruct (follows_run py w) as (_ & (l & Hout & Hl) & _).
  exists l. split; [done|]. rewrite Forall_forall in Hl.
  split; intros Hin; apply (Hl _ Hin); [by left|by right].
Qed.

(** X12: whatever is typed, a session of the console stores a rating only
    for a movie that exists at that moment.  So, started on a new store (or
    on any store whose ratings all carry ids that [add_movie] has handed
    out), it ends in such a store again, and a movie added afterwards has
    no ratings. *)
Theorem console_rates_existing_movies (py : runtime) (w : world) :
  rowids_in_sequence (self_db w) → ratings_of_issued_ids (self_db w) →
  let db' := self_db (MovieRatingApp.run py w).2 in
  rtc console_step (self_db w) db' ∧
  rowids_in_sequence db' ∧ ratings_of_issued_ids db' ∧
  ∀ now t y g d,
    get_movie_ratings (add_movie now t y g d db').2
      (add_movie now t y g d db').1 = [].
Proof.
  intros Hrow Hrat db'.
  destruct (follows_run py w) as (Hsteps & _ & _).
  pose proof (console_steps_well_numbered _ _ Hsteps (conj Hrow Hrat))
    as Hwn.
  split; [done|]. split; [apply Hwn|]. split; [apply Hwn|].
  intros now t y g d. by apply new_movie_unrated.
Qed.

(** ** The loops need no more rounds than there are lines *)

Section fuel.
Context (py : runtime).
Implicit Types (w : world).

Lemma bind_ext_on {A B} (m : shell A) (k1 k2 : A → shell B) w :
  (∀ a w', m w = (Some a, w') → k1 a w' = k2 a w') →
  bind m k1 w = bind m k2 w.
Proof.
  intros Hk. unfold bind. destruct (m w) as [[a|] w']; [|done]. by apply Hk.
Qed.

Lemma the_get_input_consumes {A} (input_type : string → option A) w a w' :
  the (MovieRatingApp.get_input py true input_type) w = (Some a, w') →
  (length (stdin w') < length (stdin w))%nat.
Proof.
  unfold the, bind, MovieRatingApp.get_input.
  pose proof (get_input_lines_length (str_strip py) input_type true (stdin w))
    as [_ Hlt].
  destruct (get_input_lines (str_strip py) true input_type (stdin w))
    as [[[x|]|] rest]; simpl in *; try done.
  intros [= <- <-]. simpl. apply Hlt. by eexists.
Qed.

Lemma the_get_input_eof {A} (input_type : string → option A) w :
  stdin w = [] →
  the (MovieRatingApp.get_input py true input_type) w = (None, w).
Proof. destruct w as [lines db n out]. simpl. by intros ->. Qed.

Lemma triple_stdin {A} (m : shell A) (Q : A → world → Prop) w r w' :
  triple (λ _, True) m Q → m w = (r, w') →
  (length (stdin w') ≤ length (stdin w))%nat.
Proof.
  intros Hm Hw. destruct (Hm w I) as [(_ & _ & Hlen) _].
  by rewrite Hw in Hlen.
Qed.

Lemma rating_loop_fuel f1 f2 w :
  (length (stdin w) ≤ f1)%nat → (length (stdin w) ≤ f2)%nat →
  MovieRatingApp.rating_loop py f1 w = MovieRatingApp.rating_loop py f2 w.
Proof.
  revert f2 w. induction f1 as [|f1 IH]; intros [|f2] w H1 H2; simpl;
    try done.
  - unfold bind. rewrite the_get_input_eof; [done|].
    destruct (stdin w); [done|simpl in H1; lia].
  - unfold bind. rewrite the_get_input_eof; [done|].
    destruct (stdin w); [done|simpl in H2; lia].
  - apply bind_ext_on. intros r w1 Hr.
    apply the_get_input_consumes in Hr.
    destruct (between_0_and_10 r); [done|].
    apply bind_ext_on. intros [] w2 [= <-]. apply IH; simpl; lia.
Qed.

Lemma run_loop_fuel f1 f2 w :
  (length (stdin w) ≤ f1)%nat → (length (stdin w) ≤ f2)%nat →
  MovieRatingApp.run_loop py f1 w = MovieRatingApp.run_loop py f2 w.
Proof.
  revert f2 w. induction f1 as [|f1 IH]; intros [|f2] w H1 H2; simpl;
    try done.
  - unfold bind. rewrite the_get_input_eof; [done|].
    destruct (stdin w); [done|simpl in H1; lia].
  - unfold bind. rewrite the_get_input_eof; [done|].
    destruct (stdin w); [done|simpl in H2; lia].
  - apply bind_ext_on. intros choice w1 Hc.
    apply the_get_input_consumes in Hc.
    repeat (destruct (String.eqb choice _);
            [apply bind_ext_on; intros [] w2 Hw2;
             eapply triple_stdin in Hw2;
               [apply IH; lia
               |first [apply triple_add_movie | apply triple_view_all_movies
                      | apply triple_search_movies
                      | apply triple_add_rating_to_movie
                      | apply triple_view_movie_details
                      | apply triple_delete_movie]]
            |]).
    destruct (String.eqb choice _); [done|].
    apply bind_ext_on. intros [] w2 [= <-].
    apply bind_ext_on. intros line w3 Hw3. apply IH.
    + unfold input in Hw3. simpl in Hw3.
      destruct (stdin w1) as [|l rest]; [done|].
      injection Hw3 as _ <-. simpl in *. lia.
    + unfold input in Hw3. simpl in Hw3.
      destruct (stdin w1) as [|l rest]; [done|].
      injection Hw3 as _ <-. simpl in *. lia.
Qed.

(** The loop of [add_rating_to_movie], as the source writes it. *)
Lemma rating_loop_unroll w :
  MovieRatingApp.rating_loop py (length (stdin w)) w =
  (rating <- the (MovieRatingApp.get_input py true (float_of_str py)) ;;
   if between_0_and_10 rating then ret rating
   else print RatingOutOfRange ;;;
        (λ w', MovieRatingApp.rating_loop py (length (stdin w')) w'))%shell w.
Proof.
  rewrite (rating_loop_fuel _ (S (length (stdin w)))) by lia. simpl.
  apply bind_ext_on. intros r w1 Hr. apply the_get_input_consumes in Hr.
  destruct (between_0_and_10 r); [done|].
  apply bind_ext_on. intros [] w2 [= <-]. apply rating_loop_fuel; simpl; lia.
Qed.

(** The loop of [run], as the source writes it. *)
Lemma run_unroll w :
  MovieRatingApp.run py w =
  (choice <- the (MovieRatingApp.get_input py true str) ;;
   if String.eqb choice "1"
     then MovieRatingApp.add_movie py ;;; MovieRatingApp.run py
   else if String.eqb choice "2"
     then MovieRatingApp.view_all_movies ;;; MovieRatingApp.run py
   else if String.eqb choice "3"
     then MovieRatingApp.search_movies py ;;; MovieRatingApp.run py
   else if String.eqb choice "4"
     then MovieRatingApp.add_rating_to_movie py None ;;; MovieRatingApp.run py
   else if String.eqb choice "5"
     then MovieRatingApp.view_movie_details py ;;; MovieRatingApp.run py
   else if String.eqb choice "6"
     then MovieRatingApp.delete_movie py ;;; MovieRatingApp.run py
   else if String.eqb choice "7" then print Goodbye
   else print InvalidChoice ;;; _ <- input ;; MovieRatingApp.run py)%shell w.
Proof.
  unfold MovieRatingApp.run at 1.
  rewrite (run_loop_fuel _ (S (length (stdin w)))) by lia. simpl.
  apply bind_ext_on. intros choice w1 Hc.
  apply the_get_input_consumes in Hc.
  repeat (destruct (String.eqb choice _);
          [apply bind_ext_on; intros [] w2 Hw2;
           eapply triple_stdin in Hw2;
             [apply run_loop_fuel; lia
             |first [apply triple_add_movie | apply triple_view_all_movies
                    | apply triple_search_movies
                    | apply triple_add_rating_to_movie
                    | apply triple_view_movie_details
                    | apply triple_delete_movie]]
          |]).
  destruct (String.eqb choice _); [done|].
  apply bind_ext_on. intros [] w2 [= <-].
  apply bind_ext_on. intros line w3 Hw3. apply run_loop_fuel.
  - unfold input in Hw3. simpl in Hw3.
    destruct (stdin w1) as [|l rest]; [done|].
    injection Hw3 as _ <-. simpl in *. lia.
  - lia.
Qed.

End fuel.

(** ** Deleting takes a "yes" *)

Section confirmation.
Context (py : runtime).
Implicit Types (w : world).

Lemma get_input_lines_rest {A} (input_type : string → option A) required
    (lines : list string) l :
  l ∈ (get_input_lines (str_strip py) required input_type lines).2 →
  l ∈ lines.
Proof.
  pose proof (get_input_lines_spec (str_strip py) input_type required lines)
    as Hspec.
  destruct (get_input_lines _ _ _ lines) as [[[a|]|] rest]; simpl.
  - destruct Hspec as (before & line & -> & _). intros Hl.
    apply elem_of_app. right. apply elem_of_cons. by right.
  - destruct Hspec as (_ & before & line & -> & _). intros Hl.
    apply elem_of_app. right. apply elem_of_cons. by right.
  - destruct Hspec as [-> _]. by intros ?%elem_of_nil.
Qed.

Lemma the_get_input_frame {A} (input_type : string → option A) w r w' :
  the (MovieRatingApp.get_input py true input_type) w = (r, w') →
  self_db w' = self_db w ∧ stdout w' = stdout w ∧
  ∀ l, l ∈ stdin w' → l ∈ stdin w.
Proof.
  unfold the, bind, MovieRatingApp.get_input.
  pose proof (get_input_lines_rest input_type true (stdin w)) as Hrest.
  destruct (get_input_lines (str_strip py) true input_type (stdin w))
    as [[[a|]|] rest]; simpl in *; intros [= <- <-]; done.
Qed.

Lemma the_get_input_str_origin w a w' :
  the (MovieRatingApp.get_input py true str) w = (Some a, w') →
  ∃ line, line ∈ stdin w ∧ a = str_strip py line.
Proof.
  unfold the, bind, MovieRatingApp.get_input.
  pose proof (get_input_lines_spec (str_strip py) str true (stdin w))
    as Hspec.
  destruct (get_input_lines (str_strip py) true str (stdin w))
    as [[[x|]|] rest]; simpl in *; try done.
  intros [= <- <-].
  destruct Hspec as (before & line & Hlines & _ & _ & [= <-]).
  exists line. split; [|done]. rewrite Hlines.
  apply elem_of_app. right. apply elem_of_cons. by left.
Qed.

Lemma press_enter_frame w r w' :
  (_ <- input ;; ret tt)%shell w = (r, w') →
  self_db w' = self_db w ∧ stdout w' = stdout w.
Proof.
  unfold bind, input, ret. destruct (stdin w); intros [= <- <-]; done.
Qed.

Lemma db_get_movie_by_id_frame mid w r w' :
  db_get_movie_by_id mid w = (r, w') → w' = w.
Proof.
  unfold db_get_movie_by_id, bound, db_query, raise.
  destruct (fits_INTEGER mid); by intros [= _ <-].
Qed.

End confirmation.

(** X13: [delete_movie] of the console deletes nothing unless a line that
    is still to be typed reads "yes" once stripped and lower-cased. *)
Theorem console_delete_needs_yes (py : runtime) (w : world) :
  (∀ line, line ∈ stdin w → str_lower py (str_strip py line) ≠ "yes") →
  self_db (MovieRatingApp.delete_movie py w).2 = self_db w.
Proof.
  intros Hno. unfold MovieRatingApp.delete_movie.
  unfold bind at 1.
  destruct (the (MovieRatingApp.get_input py true (int_of_str py)) w)
    as [[id|] w1] eqn:E1;
    apply (the_get_input_frame py) in E1 as (Hdb1 & _ & Hin1); [|done].
  unfold bind at 1.
  destruct (db_get_movie_by_id id w1) as [[movie|] w1'] eqn:Eq;
    apply db_get_movie_by_id_frame in Eq as ->; [|done].
  destruct movie as [movie|].
  - unfold bind at 1.
    destruct (the (MovieRatingApp.get_input py true str) w1)
      as [[confirm|] w2] eqn:E2.
    + pose proof (the_get_input_str_origin py _ _ _ E2)
        as (line & Hline & ->).
      apply (the_get_input_frame py) in E2 as (Hdb2 & _ & _).
      assert (String.eqb (str_lower py (str_strip py line)) "yes" = false)
        as ->.
      { apply String.eqb_neq. by apply Hno, Hin1. }
      unfold bind at 1, print at 1.
      match goal with
      | |- self_db (?m ?w0).2 = _ =>
          destruct (m w0) as [r w3] eqn:E3;
          apply press_enter_frame in E3 as [Hdb3 _]
      end.
      simpl in *. congruence.
    + apply (the_get_input_frame py) in E2 as (Hdb2 & _ & _).
      simpl. congruence.
  - unfold bind at 1, print at 1.
    match goal with
    | |- self_db (?m ?w0).2 = _ =>
        destruct (m w0) as [r w3] eqn:E3;
        apply press_enter_frame in E3 as [Hdb3 _]
    end.
    simpl in *. congruence.
Qed.

(** ** The columns of the listings *)

Lemma truncated_fits (limit keep : nat) (dots title : list N) :
  (keep + length dots ≤ limit)%nat →
  let shown :=
    if (limit <? length title)%nat then (take keep title ++ dots)%list
    else title in
  (length shown ≤ limit)%nat ∧
  ((length title ≤ limit)%nat → shown = title) ∧
  take keep shown = take keep title.
Proof.
  intros Hdots shown. unfold shown.
  destruct (Nat.ltb_spec limit (length title)) as [Hlong|Hfits].
  - assert (length (take keep title) = keep) as Hkeep
      by (apply length_take_le; lia).
    split; [|split].
    + rewrite length_app, Hkeep. lia.
    + lia.
    + rewrite take_app_le by lia. rewrite take_take. f_equal. lia.
  - done.
Qed.

(** X14: the title column never overflows: [view_all_movies] shows at most
    30 characters of a title and [search_movies] at most 35; a title that
    fits is shown as it is, and the first 28 (33) characters shown are
    always those of the title. *)
Theorem title_display_fits (title : list N) :
  (length (title_display title) ≤ 30)%nat ∧
  (length (found_title_display title) ≤ 35)%nat ∧
  ((length title ≤ 30)%nat → title_display title = title) ∧
  ((length title ≤ 35)%nat → found_title_display title = title) ∧
  take 28 (title_display title) = take 28 title ∧
  take 33 (found_title_display title) = take 33 title.
Proof.
  destruct (truncated_fits 30 28 (literal "..") title) as (H1 & H2 & H3);
    [vm_compute; lia|].
  destruct (truncated_fits 35 33 (literal "..") title) as (H4 & H5 & H6);
    [vm_compute; lia|].
  done.
Qed.

Lemma title_display_fits_witness :
  title_display (literal "Up") = literal "Up".
Proof.
  destruct (title_display_fits (literal "Up")) as (_ & _ & Hfits & _).
  apply Hfits. vm_compute. lia.
Defined.

(** X15: the comment column of [view_movie_details] shows at most 38
    characters and is never empty ("No comment" stands for a missing or
    empty comment); the genre column shows at most 15 characters and is
    never empty either. *)
Theorem comment_display_fits (comment genre : option (list N)) :
  (0 < length (comment_display comment) ≤ 38)%nat ∧
  (0 < length (genre_str genre) ≤ 15)%nat.
Proof.
  split.
  - destruct comment as [[|c t]|]; [vm_compute; lia| |vm_compute; lia].
    change (comment_display (Some (c :: t)))
      with (if (38 <? length (c :: t))%nat
            then (take 35 (c :: t) ++ literal "...")%list else c :: t).
    destruct (truncated_fits 38 35 (literal "...") (c :: t))
      as (Hle & _ & _); [vm_compute; lia|].
    split; [|done].
    destruct (38 <? length (c :: t))%nat.
    + rewrite length_app. change (length (literal "...")) with 3%nat. lia.
    + cbn [length]. lia.
  - destruct genre as [[|c g]|]; [vm_compute; lia| |vm_compute; lia].
    change (genre_str (Some (c :: g))) with (take 15 (c :: g)).
    rewrite length_take. cbn [length]. lia.
Qed.

(** ** When a movie is shown as not rated *)

Section not_rated.
Local Open Scope Q_scope.







End not_rated.


(** X17: whatever is typed, a session of the console never stores a movie
    with the empty title: if no movie of the store has one before [run], none
    has one after it.  (The title comes from [get_input] with
    [required=True]; [add_movie] of the store itself takes any title.) *)
Theorem console_titles_not_empty (py : runtime) (w : world) :
  titles_not_empty (self_db w) →
  titles_not_empty (self_db (MovieRatingApp.run py w).2).
Proof.
  intros Hw. destruct (follows_run py w) as (Hsteps & _ & _).
  by apply (console_steps_titles_not_empty _ _ Hsteps).
Qed.

Lemma console_titles_not_empty_witness :
  titles_not_empty (self_db (MovieRatingApp.run demo_runtime demo_session).2).
Proof.
  apply (console_titles_not_empty demo_runtime demo_session).
  intros k m Hk. vm_compute in Hk. discriminate Hk.
Defined.

Lemma console_rates_existing_movies_witness :
  ratings_of_issued_ids
    (self_db (MovieRatingApp.run demo_runtime demo_session).2).
Proof.
  destruct (console_rates_existing_movies demo_runtime demo_session)
    as (_ & _ & Hissued & _).
  - apply MovieDatabase_well_numbered.
  - apply MovieDatabase_well_numbered.
  - exact Hissued.
Defined.

Lemma console_delete_needs_yes_witness :
  self_db (MovieRatingApp.delete_movie demo_runtime
             (World ["1"; "no"; ""] catalogue 6 [])).2 = catalogue.
Proof.
  apply (console_delete_needs_yes demo_runtime
           (World ["1"; "no"; ""] catalogue 6 [])).
  intros line Hin. simpl in Hin.
  repeat (apply elem_of_cons in Hin as [->|Hin]; [discriminate|]).
  by apply elem_of_nil in Hin.
Defined.



(** ** Looking changes nothing, and leaving takes a 7 *)

Section looking.
Context (py : runtime).
Implicit Types (w : world).

Lemma keeps_store_ret {A} (a : A) : keeps_store (ret a).
Proof. done. Qed.

Lemma keeps_store_raise {A} : keeps_store (@raise A).
Proof. done. Qed.

Lemma keeps_store_bind {A B} (m : shell A) (k : A → shell B) :
  keeps_store m → (∀ a, keeps_store (k a)) → keeps_store (bind m k).
Proof.
  intros Hm Hk w. unfold bind. specialize (Hm w).
  destruct (m w) as [[a|] w1]; [|done]. simpl in Hm.
  by rewrite (Hk a w1).
Qed.

Lemma keeps_store_input : keeps_store input.
Proof. intros w. unfold input. by destruct (stdin w). Qed.

Lemma keeps_store_print (m : message) : keeps_store (print m).
Proof. done. Qed.

Lemma keeps_store_get_input {A} required (input_type : string → option A) :
  keeps_store (MovieRatingApp.get_input py required input_type).
Proof. done. Qed.

Lemma keeps_store_the {A} (m : shell (option A)) :
  keeps_store m → keeps_store (the m).
Proof.
  intros Hm. apply keeps_store_bind; [done|].
  intros [a|]; [apply keeps_store_ret|apply keeps_store_raise].
Qed.

Lemma keeps_store_bound {A} (z : option Z) (m : shell A) :
  keeps_store m → keeps_store (bound z m).
Proof.
  intros Hm. unfold bound. destruct z as [z|]; [|done].
  destruct (fits_INTEGER z); [done|apply keeps_store_raise].
Qed.

Lemma keeps_store_db_query {A} (q : database → A) : keeps_store (db_query q).
Proof. done. Qed.

Lemma keeps_store_press_enter : keeps_store (_ <- input ;; ret tt)%shell.
Proof.
  apply keeps_store_bind; [apply keeps_store_input|].
  intros ?. apply keeps_store_ret.
Qed.

Lemma bind_Some {A B} (m : shell A) (k : A → shell B) w b w' :
  bind m k w = (Some b, w') →
  ∃ a w1, m w = (Some a, w1) ∧ k a w1 = (Some b, w').
Proof.
  unfold bind. destruct (m w) as [[a|] w1]; [|done]. intros Hk.
  by exists a, w1.
Qed.

Lemma follows_stdout w w' :
  follows w w' → ∃ l, stdout w' = (stdout w ++ l)%list.
Proof. intros (_ & (l & Hl & _) & _). by exists l. Qed.

Lemma run_loop_returns fuel w r w' :
  MovieRatingApp.run_loop py fuel w = (Some r, w') →
  ∃ l, stdout w' = (stdout w ++ l ++ [Goodbye])%list.
Proof.
  revert w. induction fuel as [|fuel IH]; intros w; simpl; [done|].
  intros (choice & w1 & Hc & Hrest)%bind_Some.
  apply the_get_input_frame in Hc as (_ & Hout1 & _).
  rewrite <- Hout1. clear Hout1 w.
  assert (∀ (m : shell unit),
            triple (λ _, True) m (λ _ _, True) →
            bind m (λ _, MovieRatingApp.run_loop py fuel) w1 = (Some r, w') →
            ∃ l, stdout w' = (stdout w1 ++ l ++ [Goodbye])%list) as Hround.
  { intros m Hm (u & w2 & Hw2 & Hloop)%bind_Some.
    destruct (Hm w1 I) as [Hf _]. rewrite Hw2 in Hf. simpl in Hf.
    apply follows_stdout in Hf as [l2 Hl2].
    apply IH in Hloop as [l Hl]. exists (l2 ++ l)%list.
    by rewrite Hl, Hl2, <- !app_assoc. }
  repeat (destruct (String.eqb choice _);
          [apply Hround in Hrest; [done|];
           first [apply triple_add_movie | apply triple_view_all_movies
                 | apply triple_search_movies
                 | apply triple_add_rating_to_movie
                 | apply triple_view_movie_details
                 | apply triple_delete_movie]
          |]).
  destruct (String.eqb choice _).
  - injection Hrest as _ <-. by exists [].
  - apply bind_Some in Hrest as ([] & w2 & [= <-] & Hrest).
    apply bind_Some in Hrest as (line & w3 & Hin & Hloop).
    apply IH in Hloop as [l Hl]. exists (InvalidChoice :: l).
    rewrite Hl. unfold input in Hin. simpl in Hin.
    destruct (stdin w1); [done|]. injection Hin as _ <-. simpl.
    by rewrite <- app_assoc.
Qed.

End looking.

(** X19: [view_all_movies], [search_movies] and [view_movie_details] of the
    console never change the store, whatever is typed. *)
Theorem console_views_keep_store (py : runtime) :
  keeps_store MovieRatingApp.view_all_movies ∧
  keeps_store (MovieRatingApp.search_movies py) ∧
  keeps_store (MovieRatingApp.view_movie_details py).
Proof.
  split; [|split].
  - apply keeps_store_bind; [apply keeps_store_db_query|]. intros rows.
    apply keeps_store_bind; [apply keeps_store_print|]. intros ?.
    apply keeps_store_press_enter.
  - apply keeps_store_bind;
      [apply keeps_store_the, keeps_store_get_input|]. intros term.
    apply keeps_store_bind; [apply keeps_store_db_query|]. intros rows.
    apply keeps_store_bind; [apply keeps_store_print|]. intros ?.
    apply keeps_store_press_enter.
  - apply keeps_store_bind;
      [apply keeps_store_the, keeps_store_get_input|]. intros id.
    apply keeps_store_bind;
      [apply keeps_store_bound, keeps_store_db_query|]. intros [movie|].
    + apply keeps_store_bind;
        [apply keeps_store_bound, keeps_store_db_query|]. intros rows.
      apply keeps_store_bind; [apply keeps_store_print|]. intros ?.
      apply keeps_store_press_enter.
    + apply keeps_store_bind; [apply keeps_store_print|]. intros ?.
      apply keeps_store_press_enter.
Qed.

(** X20: [run] returns only through the choice 7: when it returns (and no
    exception passes), the last line printed is the goodbye, and what was
    printed before the session is still there. *)
Theorem console_leaves_on_7 (py : runtime) (w : world) :
  (MovieRatingApp.run py w).1 = Some tt →
  ∃ l, stdout (MovieRatingApp.run py w).2 = (stdout w ++ l ++ [Goodbye])%list.
Proof.
  intros Hret. unfold MovieRatingApp.run in *.
  destruct (MovieRatingApp.run_loop py (length (stdin w)) w) as [r w'] eqn:E.
  simpl in Hret. subst r. by apply (run_loop_returns py) in E.
Qed.

Lemma console_leaves_on_7_witness :
  ∃ l, stdout (MovieRatingApp.run demo_runtime demo_session).2 =
       (stdout demo_session ++ l ++ [Goodbye])%list.
Proof.
  apply (console_leaves_on_7 demo_runtime demo_session).
  vm_compute. reflexivity.
Defined.

(** ** A session, run on the model *)

Example scenario_session :
  let end_of_session := MovieRatingApp.run demo_runtime demo_session in
  end_of_session.1 = Some tt ∧
  stdin end_of_session.2 = ["left over"] ∧
  stdout end_of_session.2 =
    [MovieAdded "Up" 1; RatingOutOfRange; RatingAdded; MovieNotFound 5;
     DeletionCancelled;
     AllMovies [(1, "Up", Some 2009, None, None, Some 9%Q, 1)];
     MovieDeleted; Goodbye] ∧
  movies (self_db end_of_session.2) = ∅ ∧
  size (ratings (self_db end_of_session.2)) = 1%nat.
Proof. vm_compute. done. Qed.
